(** * The trusty example of gollm: tool-call turn taking

    A shallow embedding of [examples/trusty/main.go].  The program asks a chat
    backend a question, lets the model request the [trustyReport] tool, fetches
    the report over HTTP, re-encodes it with [encoding/json] and drives two more
    model turns.

    The definitions come first.  [Bytes], [Utf8] and [Json] model the two
    [encoding/json] entry points the program calls, [json.Unmarshal] into a
    [map[string]interface{}] and [json.MarshalIndent].  [Trusty] is the
    program itself, written in a small state-and-exit monad over a [World]
    that answers the external calls, and [Scenario] holds worlds on which it
    can be run.  The facts follow: about UTF-8 and the JSON model, about the
    runs of the program, and last the properties claimed for it. *)

From Stdlib Require Import String Ascii List NArith PeanoNat Bool Lia.
From Stdlib Require Import Sorted OrderedTypeEx.
Import ListNotations.

#[local] Set Warnings "-register-all".

Local Open Scope list_scope.
Local Open Scope string_scope.

(** ** Bytes

    A Go [string] and a [[]byte] are sequences of bytes; both are modelled by
    [string], whose characters are the 256 byte values. *)

Module Bytes.

Definition code (c : ascii) : N := N_of_ascii c.
Definition byte (n : N) : ascii := ascii_of_N n.

Definition quote : ascii := "034"%char.
Definition backslash : ascii := "092"%char.
Definition newline : ascii := "010"%char.

Definition str (c : ascii) : string := String c EmptyString.

(** [lo <= c <= hi] on byte values. *)
Definition between (lo hi : N) (c : ascii) : bool :=
  ((lo <=? code c) && (code c <=? hi))%N.

Definition is_digit (c : ascii) : bool := between 48 57 c.

(** The value of a hexadecimal digit, as [getu4] of decode.go reads it. *)
Definition hex_val (c : ascii) : option N :=
  if between 48 57 c then Some (code c - 48)%N
  else if between 97 102 c then Some (code c - 87)%N
  else if between 65 70 c then Some (code c - 55)%N
  else None.

(** [hex[n]] of encode.go: the digits are lower case. *)
Definition hex_digit (n : N) : ascii :=
  if (n <? 10)%N then byte (48 + n) else byte (87 + n).

Fixpoint repeat_string (s : string) (n : nat) : string :=
  match n with
  | O => EmptyString
  | S n' => s ++ repeat_string s n'
  end.

End Bytes.

(** ** UTF-8, as package unicode/utf8 decides it *)

Module Utf8.
Import Bytes.

Definition cont (c : ascii) : bool := between 128 191 c.

(** Well-formed sequences of two, three and four bytes.  Over-long forms,
    surrogates and values above U+10FFFF are not well formed. *)
Definition two (c0 c1 : ascii) : bool :=
  between 194 223 c0 && cont c1.

Definition three (c0 c1 c2 : ascii) : bool :=
  between 224 239 c0
  && (if (code c0 =? 224)%N then between 160 191 c1
      else if (code c0 =? 237)%N then between 128 159 c1
      else cont c1)
  && cont c2.

Definition four (c0 c1 c2 c3 : ascii) : bool :=
  between 240 244 c0
  && (if (code c0 =? 240)%N then between 144 191 c1
      else if (code c0 =? 244)%N then between 128 143 c1
      else cont c1)
  && cont c2 && cont c3.

(** The length of the well-formed UTF-8 sequence that starts [s], if one does:
    [utf8.DecodeRune] answers [(RuneError, 1)] exactly when this is [None]
    (for a non-empty [s]). *)
Definition seq_len (s : string) : option nat :=
  match s with
  | EmptyString => None
  | String c0 r0 =>
    if (code c0 <? 128)%N then Some 1
    else match r0 with
    | EmptyString => None
    | String c1 r1 =>
      if two c0 c1 then Some 2
      else match r1 with
      | EmptyString => None
      | String c2 r2 =>
        if three c0 c1 c2 then Some 3
        else match r2 with
        | EmptyString => None
        | String c3 _ => if four c0 c1 c2 c3 then Some 4 else None
        end
      end
    end
  end.

(** [utf8.EncodeRune]: surrogates and values out of range are written as
    U+FFFD. *)
Definition encode_rune (r : N) : string :=
  if (r <? 128)%N then str (byte r)
  else if (r <? 2048)%N then
    String (byte (192 + r / 64)) (str (byte (128 + r mod 64)))
  else if ((r <? 55296) || ((57344 <=? r) && (r <? 65536)))%N then
    String (byte (224 + r / 4096))
      (String (byte (128 + (r / 64) mod 64)) (str (byte (128 + r mod 64))))
  else if ((65536 <=? r) && (r <? 1114112))%N then
    String (byte (240 + r / 262144))
      (String (byte (128 + (r / 4096) mod 64))
        (String (byte (128 + (r / 64) mod 64)) (str (byte (128 + r mod 64)))))
  else String (byte 239) (String (byte 191) (str (byte 189))).

Definition replacement : string := encode_rune 65533.

(** A string is valid UTF-8 when it splits into well-formed sequences. *)
Fixpoint valid (s : string) : bool :=
  match s with
  | EmptyString => true
  | String _ r =>
    match seq_len s, r with
    | Some 1, _ => valid r
    | Some 2, String _ r2 => valid r2
    | Some 3, String _ (String _ r3) => valid r3
    | Some 4, String _ (String _ (String _ r4)) => valid r4
    | _, _ => false
    end
  end.

End Utf8.

(** ** encoding/json

    The values [json.Unmarshal] stores in an [interface{}], the text it accepts,
    and the text [json.MarshalIndent] writes for them.  Text is handled byte by
    byte as the package does.  The wording of the errors is left out. *)

Module Json.
Import Bytes.

(** JSON numbers are decoded to [float64] with [strconv.ParseFloat] and
    written back by the encoder's [floatEncoder].  Binary floating point is
    kept abstract: the development is parametric in these operations. *)
Class Strconv := {
  float64 : Type;
  (** [strconv.ParseFloat(lit, 64)], [None] when it reports an error *)
  ParseFloat : string -> option float64;
  (** [math.IsInf(f, 0) || math.IsNaN(f)], which the encoder rejects *)
  IsInfOrNaN : float64 -> bool;
  (** the digits [floatEncoder] writes for a finite number *)
  FormatFloat : float64 -> string
}.

Section Values.
Context {SC : Strconv}.

(** The dynamic types behind an [interface{}] after decoding: [nil], [bool],
    [float64], [string], [[]interface{}] and [map[string]interface{}].  A map
    is kept as the list of its entries in increasing key order, the order in
    which the encoder writes them. *)
Inductive jvalue : Type :=
| JNull
| JBool (b : bool)
| JNumber (f : float64)
| JString (s : string)
| JArray (l : list jvalue)
| JObject (m : list (string * jvalue)).

Definition jmap : Type := list (string * jvalue).

(** [m[k]] *)
Fixpoint lookup (k : string) (m : jmap) : option jvalue :=
  match m with
  | [] => None
  | (k', v) :: m' => if String.eqb k k' then Some v else lookup k m'
  end.

(** [m[k] = v] *)
Fixpoint insert (k : string) (v : jvalue) (m : jmap) : jmap :=
  match m with
  | [] => [(k, v)]
  | (k', v') :: m' =>
    match String.compare k k' with
    | Lt => (k, v) :: m
    | Eq => (k, v) :: m'
    | Gt => (k', v') :: insert k v m'
    end
  end.

(** A map literal. *)
Definition of_list (l : list (string * jvalue)) : jmap :=
  fold_left (fun m kv => insert (fst kv) (snd kv) m) l [].

(** *** Scanning *)

Inductive token : Type :=
| TLBrace | TRBrace | TLBrack | TRBrack | TColon | TComma
| TString (s : string)
| TNumber (f : float64)
| TTrue | TFalse | TNull.

Definition is_space (c : ascii) : bool :=
  match code c with
  | 32%N | 9%N | 13%N | 10%N => true
  | _ => false
  end.

(** Bytes that can occur in a number literal. *)
Definition is_number_char (c : ascii) : bool :=
  is_digit c ||
  match code c with
  | 43%N | 45%N | 46%N | 69%N | 101%N => true
  | _ => false
  end.

(** The number grammar of the scanner: an optional minus sign; then a single
    0, or a digit from 1 to 9 followed by any digits; then optionally a dot and
    one or more digits; then optionally e or E, an optional sign and one or
    more digits. *)
Fixpoint all_digits (s : string) : bool :=
  match s with
  | EmptyString => true
  | String c r => is_digit c && all_digits r
  end.

Definition exponent (s : string) : bool :=
  match s with
  | String c r =>
    if (code c =? 43)%N || (code c =? 45)%N
    then match r with EmptyString => false | _ => all_digits r end
    else all_digits s
  | EmptyString => false
  end.

Fixpoint fraction (seen : bool) (s : string) : bool :=
  match s with
  | EmptyString => seen
  | String c r =>
    if is_digit c then fraction true r
    else if (code c =? 69)%N || (code c =? 101)%N then seen && exponent r
    else false
  end.

Fixpoint integer_tail (s : string) : bool :=
  match s with
  | EmptyString => true
  | String c r =>
    if is_digit c then integer_tail r
    else if (code c =? 46)%N then fraction false r
    else if (code c =? 69)%N || (code c =? 101)%N then exponent r
    else false
  end.

Definition after_zero (s : string) : bool :=
  match s with
  | EmptyString => true
  | String c r =>
    if (code c =? 46)%N then fraction false r
    else if (code c =? 69)%N || (code c =? 101)%N then exponent r
    else false
  end.

Definition unsigned_literal (s : string) : bool :=
  match s with
  | EmptyString => false
  | String c r =>
    if (code c =? 48)%N then after_zero r
    else if between 49 57 c then integer_tail r
    else false
  end.

Definition number_literal (s : string) : bool :=
  match s with
  | String c r => if (code c =? 45)%N then unsigned_literal r else unsigned_literal s
  | EmptyString => false
  end.

(** [convertNumber] of decode.go on a scanned literal. *)
Definition number_token (lit : string) : option token :=
  if number_literal lit then option_map TNumber (ParseFloat lit) else None.

(** Four hexadecimal digits, [getu4]. *)
Definition hex4 (a b c d : ascii) : option N :=
  match hex_val a, hex_val b, hex_val c, hex_val d with
  | Some x, Some y, Some z, Some w => Some (((x * 16 + y) * 16 + z) * 16 + w)%N
  | _, _, _, _ => None
  end.

Definition is_surrogate (u : N) : bool := ((55296 <=? u) && (u <? 57344))%N.

(** [utf16.DecodeRune]: [None] stands for U+FFFD, the answer for anything
    but a high surrogate followed by a low one. *)
Definition surrogate_pair (hi lo : N) : option N :=
  if ((55296 <=? hi) && (hi <? 56320) && (56320 <=? lo) && (lo <? 57344))%N
  then Some ((hi - 55296) * 1024 + (lo - 56320) + 65536)%N
  else None.

(** The byte a one-letter escape stands for. *)
Definition simple_escape (e : ascii) : option ascii :=
  match code e with
  | 34%N => Some quote
  | 92%N => Some backslash
  | 47%N => Some "/"%char
  | 98%N => Some (byte 8)
  | 102%N => Some (byte 12)
  | 110%N => Some (byte 10)
  | 114%N => Some (byte 13)
  | 116%N => Some (byte 9)
  | _ => None
  end.

Inductive lstate : Type :=
| LStart
    (** between tokens *)
| LString (acc : string)
    (** inside a string literal: [acc] is the text decoded so far *)
| LNumber (acc : string)
    (** inside a number literal *).

Definition cons_token (t : token) (r : option (list token)) : option (list token) :=
  option_map (cons t) r.

Definition emit_number (lit : string) (r : option (list token)) : option (list token) :=
  match number_token lit with
  | Some t => cons_token t r
  | None => None
  end.

(** The scanner of scanner.go together with [unquote] of decode.go, one byte at
    a time.  The result is the sequence of tokens of the whole input, or [None]
    for input the decoder rejects. *)
Fixpoint lex (st : lstate) (s : string) {struct s} : option (list token) :=
  match s with
  | EmptyString =>
    match st with
    | LStart => Some []
    | LString _ => None
    | LNumber acc => emit_number acc (Some [])
    end
  | String c r =>
    let start :=
      if is_space c then lex LStart r
      else match code c with
      | 123%N => cons_token TLBrace (lex LStart r)
      | 125%N => cons_token TRBrace (lex LStart r)
      | 91%N => cons_token TLBrack (lex LStart r)
      | 93%N => cons_token TRBrack (lex LStart r)
      | 58%N => cons_token TColon (lex LStart r)
      | 44%N => cons_token TComma (lex LStart r)
      | 34%N => lex (LString EmptyString) r
      | 116%N =>
        match r with
        | String "r" (String "u" (String "e" r')) => cons_token TTrue (lex LStart r')
        | _ => None
        end
      | 102%N =>
        match r with
        | String "a" (String "l" (String "s" (String "e" r'))) =>
          cons_token TFalse (lex LStart r')
        | _ => None
        end
      | 110%N =>
        match r with
        | String "u" (String "l" (String "l" r')) => cons_token TNull (lex LStart r')
        | _ => None
        end
      | _ =>
        if is_digit c || (code c =? 45)%N then lex (LNumber (str c)) r else None
      end in
    match st with
    | LStart => start
    | LNumber acc =>
      if is_number_char c then lex (LNumber (acc ++ str c)) r
      else emit_number acc start
    | LString acc =>
      if (code c =? 34)%N then cons_token (TString acc) (lex LStart r)
      else if (code c =? 92)%N then
        match r with
        | EmptyString => None
        | String e r1 =>
          if (code e =? 117)%N then
            match r1 with
            | String h1 (String h2 (String h3 (String h4 r5))) =>
              match hex4 h1 h2 h3 h4 with
              | None => None
              | Some u =>
                if is_surrogate u then
                  match r5 with
                  | String b (String e' (String g1 (String g2 (String g3 (String g4 r11))))) =>
                    match (if (code b =? 92)%N && (code e' =? 117)%N
                           then hex4 g1 g2 g3 g4 else None) with
                    | Some u' =>
                      match surrogate_pair u u' with
                      | Some rr => lex (LString (acc ++ Utf8.encode_rune rr)) r11
                      | None => lex (LString (acc ++ Utf8.replacement)) r5
                      end
                    | None => lex (LString (acc ++ Utf8.replacement)) r5
                    end
                  | _ => lex (LString (acc ++ Utf8.replacement)) r5
                  end
                else lex (LString (acc ++ Utf8.encode_rune u)) r5
              end
            | _ => None
            end
          else match simple_escape e with
               | Some x => lex (LString (acc ++ str x)) r1
               | None => None
               end
        end
      else if (code c <? 32)%N then None
      else if (code c <? 128)%N then lex (LString (acc ++ str c)) r
      else match Utf8.seq_len s, r with
           | Some 2, String c1 r2 =>
             lex (LString (acc ++ String c (str c1))) r2
           | Some 3, String c1 (String c2 r3) =>
             lex (LString (acc ++ String c (String c1 (str c2)))) r3
           | Some 4, String c1 (String c2 (String c3 r4)) =>
             lex (LString (acc ++ String c (String c1 (String c2 (str c3))))) r4
           | _, _ => lex (LString (acc ++ Utf8.replacement)) r
           end
    end
  end.

(** *** Decoding

    The decoder keeps, for every array or object it is inside, what it has
    collected so far. *)
Inductive frame : Type :=
| FArray (elems : list jvalue)
    (** inside an array, after these elements *)
| FObject (m : jmap) (key : string)
    (** inside an object with entries [m], reading the value of [key] *).

(** [maxNestingDepth] of scanner.go: arrays and objects nest at most this
    deep. *)
Definition max_depth : nat := 100 * 100.

(** [value stack ts] reads one value from [ts] and hands it to the innermost
    frame; [after v stack ts] continues once [v] is complete.  At the bottom of
    the stack the input must end.  A key that occurs again replaces the earlier
    entry, as assignment to a Go map does. *)
Fixpoint value (stack : list frame) (ts : list token) {struct ts} : option jvalue :=
  match ts with
  | [] => None
  | t :: r =>
    match t with
    | TNull => after JNull stack r
    | TTrue => after (JBool true) stack r
    | TFalse => after (JBool false) stack r
    | TNumber f => after (JNumber f) stack r
    | TString s => after (JString s) stack r
    | TLBrack =>
      if Nat.ltb (length stack) max_depth then
        match r with
        | TRBrack :: r' => after (JArray []) stack r'
        | _ => value (FArray [] :: stack) r
        end
      else None
    | TLBrace =>
      if Nat.ltb (length stack) max_depth then
        match r with
        | TRBrace :: r' => after (JObject []) stack r'
        | TString k :: TColon :: r' => value (FObject [] k :: stack) r'
        | _ => None
        end
      else None
    | _ => None
    end
  end
with after (v : jvalue) (stack : list frame) (ts : list token) {struct ts} : option jvalue :=
  match stack, ts with
  | [], [] => Some v
  | [], _ :: _ => None
  | _ :: _, [] => None
  | FArray elems :: stack', t :: r =>
    match t with
    | TComma => value (FArray (elems ++ [v])%list :: stack') r
    | TRBrack => after (JArray (elems ++ [v])%list) stack' r
    | _ => None
    end
  | FObject m k :: stack', t :: r =>
    match t with
    | TComma =>
      match r with
      | TString k' :: TColon :: r' => value (FObject (insert k v m) k' :: stack') r'
      | _ => None
      end
    | TRBrace => after (JObject (insert k v m)) stack' r
    | _ => None
    end
  end.

(** The text of a whole document. *)
Definition decode (data : string) : option jvalue :=
  match lex LStart data with
  | Some ts => value [] ts
  | None => None
  end.

(** [json.Unmarshal(data, &m)] for [var m map[string]interface{}], [m] being
    [nil] before the call.  The outer [option] is the error; the inner one is
    the map, [None] for the [nil] that a JSON [null] leaves in place.  Any other
    top-level value is an [UnmarshalTypeError]. *)
Definition Unmarshal (data : string) : option (option jmap) :=
  match decode data with
  | Some (JObject m) => Some (Some m)
  | Some JNull => Some None
  | _ => None
  end.

(** *** Encoding *)

(** [htmlSafeSet] of tables.go: the ASCII bytes written as they are. *)
Definition html_safe (c : ascii) : bool :=
  between 32 127 c &&
  negb match code c with
       | 34%N | 38%N | 60%N | 62%N | 92%N => true
       | _ => false
       end.

Definition u00 (c : ascii) : string :=
  String backslash (String "u" (String "0" (String "0"
    (String (hex_digit (code c / 16)) (str (hex_digit (code c mod 16))))))).

(** The escape [appendString] writes for an ASCII byte outside
    [htmlSafeSet]. *)
Definition escape_byte (c : ascii) : string :=
  match code c with
  | 92%N | 34%N => String backslash (str c)
  | 8%N => String backslash "b"
  | 12%N => String backslash "f"
  | 10%N => String backslash "n"
  | 13%N => String backslash "r"
  | 9%N => String backslash "t"
  | _ => u00 c
  end.

(** U+2028 and U+2029 in UTF-8: E2 80 A8 and E2 80 A9. *)
Definition line_separator (c0 c1 c2 : ascii) : bool :=
  ((code c0 =? 226) && (code c1 =? 128)
   && ((code c2 =? 168) || (code c2 =? 169)))%N.

(** [appendString] of encode.go with [escapeHTML] set, without the enclosing
    quotes.  A well-formed UTF-8 sequence is copied, except that U+2028 and
    U+2029 are escaped; a byte that starts no well-formed sequence is written
    as an escaped U+FFFD. *)
Fixpoint escape (s : string) {struct s} : string :=
  match s with
  | EmptyString => EmptyString
  | String c r =>
    if (code c <? 128)%N then
      if html_safe c then String c (escape r) else escape_byte c ++ escape r
    else
      match Utf8.seq_len s, r with
      | Some 2, String c1 r2 => String c (String c1 (escape r2))
      | Some 3, String c1 (String c2 r3) =>
        if line_separator c c1 c2
        then String backslash (String "u" (String "2" (String "0" (String "2"
               (String (hex_digit (code c2 mod 16)) (escape r3))))))
        else String c (String c1 (String c2 (escape r3)))
      | Some 4, String c1 (String c2 (String c3 r4)) =>
        String c (String c1 (String c2 (String c3 (escape r4))))
      | _, _ => String backslash "ufffd" ++ escape r
      end
  end.

Definition quoted (s : string) : string :=
  String quote (escape s ++ str quote).

(** A line break followed by the indentation of depth [d]: [MarshalIndent] is
    called with the empty prefix and two spaces per level. *)
Definition indent (d : nat) : string :=
  String newline (repeat_string "  " d).

(** The text of [v] at nesting depth [d].  Empty arrays and objects stay on one
    line; the entries of an object come in increasing key order. *)
Fixpoint print (d : nat) (v : jvalue) {struct v} : string :=
  match v with
  | JNull => "null"
  | JBool true => "true"
  | JBool false => "false"
  | JNumber f => FormatFloat f
  | JString s => quoted s
  | JArray [] => "[]"
  | JArray (x :: xs) =>
    "[" ++ indent (S d) ++ print (S d) x
    ++ (fix elements (l : list jvalue) : string :=
          match l with
          | [] => EmptyString
          | y :: l' => "," ++ indent (S d) ++ print (S d) y ++ elements l'
          end) xs
    ++ indent d ++ "]"
  | JObject [] => "{}"
  | JObject ((k, x) :: m) =>
    "{" ++ indent (S d) ++ quoted k ++ ": " ++ print (S d) x
    ++ (fix members (l : list (string * jvalue)) : string :=
          match l with
          | [] => EmptyString
          | (k', y) :: l' =>
            "," ++ indent (S d) ++ quoted k' ++ ": " ++ print (S d) y ++ members l'
          end) m
    ++ indent d ++ "}"
  end.

(** Values the encoder accepts: every number is finite. *)
Fixpoint supported (v : jvalue) : bool :=
  match v with
  | JNumber f => negb (IsInfOrNaN f)
  | JArray l => forallb supported l
  | JObject m => forallb (fun kv => supported (snd kv)) m
  | _ => true
  end.

(** [json.MarshalIndent(m, "", "  ")] for [m] of type
    [map[string]interface{}]; [None] is the [UnsupportedValueError]. *)
Definition MarshalIndent (m : option jmap) : option string :=
  match m with
  | None => Some "null"
  | Some m' => if supported (JObject m') then Some (print 0 (JObject m')) else None
  end.

(** *** What is assumed of the number conversions *)

(** A number the decoder can have read: it is finite, and the encoder writes
    it as a literal that is read back as the same number. *)
Definition good_number (f : float64) : Prop :=
  IsInfOrNaN f = false
  /\ number_literal (FormatFloat f) = true
  /\ ParseFloat (FormatFloat f) = Some f.

(** The contract of package strconv the development relies on: a number
    literal that [ParseFloat] accepts yields a finite number, which is then
    written in the shortest form that [ParseFloat] reads back as itself, and
    that form is a number literal again. *)
Definition lawful : Prop :=
  forall lit f,
    number_literal lit = true -> ParseFloat lit = Some f -> good_number f.

End Values.

Arguments jvalue : clear implicits.
Arguments jmap : clear implicits.
Arguments token : clear implicits.
Arguments frame : clear implicits.
Arguments lawful : clear implicits.

End Json.

(** ** examples/trusty/main.go *)

Module Trusty.
Import Bytes.

(** Time is counted in nanoseconds, the unit of [time.Duration]. *)
Definition time_Second : N := 1000000000.

(** A Go [error] value.  The program tells [context.DeadlineExceeded] from
    every other error and otherwise only prints the error. *)
Inductive error : Type :=
| DeadlineExceeded
| JsonError
    (** an error of encoding/json, whose wording is not modelled *)
| Error (text : string)
    (** any other error, with the text of its [Error()] *).

Definition is_DeadlineExceeded (e : error) : bool :=
  match e with
  | DeadlineExceeded => true
  | _ => false
  end.

Definition error_text (e : error) : string :=
  match e with
  | DeadlineExceeded => "context deadline exceeded"
  | JsonError => "json: error"
  | Error text => text
  end.

(** A context made by [context.WithTimeout(context.Background(), d)]: it has
    no parent whose cancellation it could inherit, and it expires [d] after it
    was created. *)
Record Context : Type := {
  created : N;
  deadline : N
}.

(** The two arguments the tool requires. *)
Inductive required : Type := package_name | ecosystem.

(** The argument of a [log.Fatal] call, named after the kind of failure. *)
Inductive fatal : Type :=
| ArgumentError (arg : required)
| LookupError (cause : error)
| UnexpectedToolError (name : string)
| TimeoutError
| BackendError (cause : error).

Definition fatal_message (f : fatal) : string :=
  match f with
  | ArgumentError package_name => "failed to get package name from Ollama response"
  | ArgumentError ecosystem => "failed to get ecosystem from Ollama response"
  | LookupError cause => "failed to get trusty report: " ++ error_text cause
  | UnexpectedToolError name => "unexpected function call: " ++ name
  | TimeoutError => "timeout while waiting for Ollama response"
  | BackendError cause => "failed to generate response: " ++ error_text cause
  end.

(** A computation either returns or ends the process through [log.Fatal]. *)
Inductive result (A : Type) : Type :=
| Return (a : A)
| Exit (f : fatal).

Arguments Return {A} a.
Arguments Exit {A} f.

(** The exit status of the process: [log.Fatal] calls [os.Exit(1)]. *)
Definition exit_status {A} (r : result A) : N :=
  match r with
  | Return _ => 0
  | Exit _ => 1
  end.

Section Program.
Context {SC : Json.Strconv}.

Definition any : Type := Json.jvalue SC.

(** [map[string]any]; [None] is the [nil] map. *)
Definition map_string_any : Type := option (Json.jmap SC).

(** A map literal. *)
Definition map_literal (l : list (string * any)) : map_string_any :=
  Some (Json.of_list l).

(** [m[k]], which on a [nil] map is the zero value like on a missing key. *)
Definition index (m : map_string_any) (k : string) : option any :=
  match m with
  | Some m' => Json.lookup k m'
  | None => None
  end.

(** The type assertion [x.(string)] on a map element. *)
Definition as_string (x : option any) : option string :=
  match x with
  | Some (Json.JString s) => Some s
  | _ => None
  end.

(** The types of package backend that the program reads.  Their declarations
    are outside this file; the fields are the ones main.go selects. *)
Record OllamaFunctionCall : Type := {
  Name : string;
  Arguments : map_string_any
}.

Record OllamaToolCall : Type := {
  Function : OllamaFunctionCall
}.

Record OllamaResponseMessage : Type := {
  Content : string;
  ToolCalls : list OllamaToolCall
}.

Record OllamaResponse : Type := {
  Message : OllamaResponseMessage
}.

(** One call of [ollamaBackend.Chat(ctx, messages, tools)], made at time
    [chat_start].  [tools] is [None] for the [nil] argument. *)
Record ChatCall : Type := {
  chat_ctx : Context;
  chat_start : N;
  chat_messages : list map_string_any;
  chat_tools : option (list map_string_any)
}.

Record ChatReturn : Type := {
  chat_result : OllamaResponse + error;
  chat_took : N
}.

(** What [client.Do] returns when it does not fail: the status line and the
    outcome of reading the body with [io.ReadAll]. *)
Record Response : Type := {
  StatusCode : N;
  Body : string + error
}.

Record DoReturn : Type := {
  do_result : Response + error;
  do_took : N
}.

(** Everything outside the program: the chat backend, the HTTP client and the
    JSON encoding of the backend's message type.  [chat n call] answers the
    call that follows [n] earlier ones. *)
Record World : Type := {
  chat : nat -> ChatCall -> ChatReturn;
  (** [http.NewRequest("GET", url, nil)]: [Some] is the error *)
  NewRequest : string -> option error;
  (** [client.Do(req)] for the request to [url] *)
  Do : string -> DoReturn;
  (** [json.Marshal(resp)] for a [backend.OllamaResponseMessage] *)
  Marshal : OllamaResponseMessage -> string + error
}.

Inductive event : Type :=
| EvChat (call : ChatCall) (returned : N)
    (** a model turn, with the time it returned *)
| EvLookup (packageName ecosystem : string)
    (** a call of [trustyReport] *)
| EvHttp (url : string)
    (** a request sent by [client.Do] *).

(** The process as seen from outside.  [stderr] holds the lines written
    through package log, without their time stamps. *)
Record State : Type := {
  now : N;
  trace : list event;
  stdout : string;
  stderr : list string
}.

Definition initial : State :=
  {| now := 0; trace := []; stdout := EmptyString; stderr := [] |}.

Definition M (A : Type) : Type := State -> result A * State.

Definition ret {A} (a : A) : M A := fun st => (Return a, st).

Definition bind {A B} (m : M A) (f : A -> M B) : M B :=
  fun st =>
    match m st with
    | (Return a, st') => f a st'
    | (Exit e, st') => (Exit e, st')
    end.

Notation "x <- m ;; k" := (bind m (fun x => k))
  (at level 61, m at next level, right associativity).
Notation "m ;; k" := (bind m (fun _ => k))
  (at level 61, right associativity).

Definition emit (e : event) : M unit :=
  fun st => (Return tt,
    {| now := now st; trace := (trace st ++ [e])%list;
       stdout := stdout st; stderr := stderr st |}).

Definition wait (d : N) : M unit :=
  fun st => (Return tt,
    {| now := (now st + d)%N; trace := trace st;
       stdout := stdout st; stderr := stderr st |}).

Definition clock : M N := fun st => (Return (now st), st).

(** [fmt.Print] of an already formatted text. *)
Definition print (text : string) : M unit :=
  fun st => (Return tt,
    {| now := now st; trace := trace st;
       stdout := stdout st ++ text; stderr := stderr st |}).

(** [fmt.Println(a...)]: the operands separated by spaces, then a line
    break. *)
Definition Println (operands : list string) : M unit :=
  print (String.concat " " operands ++ str newline).

Definition log_Println (line : string) : M unit :=
  fun st => (Return tt,
    {| now := now st; trace := trace st;
       stdout := stdout st; stderr := (stderr st ++ [line])%list |}).

(** [log.Fatal] and [log.Fatalf]: write the line, then [os.Exit(1)]. *)
Definition log_Fatal {A} (f : fatal) : M A :=
  fun st => (Exit f,
    {| now := now st; trace := trace st;
       stdout := stdout st; stderr := (stderr st ++ [fatal_message f])%list |}).

(** [context.WithTimeout(context.Background(), d)] *)
Definition WithTimeout (d : N) : M Context :=
  t <- clock ;; ret {| created := t; deadline := (t + d)%N |}.

Definition is_chat (e : event) : bool :=
  match e with
  | EvChat _ _ => true
  | _ => false
  end.

Definition is_lookup (e : event) : bool :=
  match e with
  | EvLookup _ _ => true
  | _ => false
  end.

Definition is_http (e : event) : bool :=
  match e with
  | EvHttp _ => true
  | _ => false
  end.

Definition chats (tr : list event) : list event := filter is_chat tr.
Definition lookups (tr : list event) : list event := filter is_lookup tr.
Definition requests (tr : list event) : list event := filter is_http tr.

Variable w : World.

(** [ollBe.Chat(ctx, messages, tools)] *)
Definition Chat (ctx : Context) (messages : list map_string_any)
    (tools : option (list map_string_any)) : M (OllamaResponse + error) :=
  fun st =>
    let call := {| chat_ctx := ctx; chat_start := now st;
                   chat_messages := messages; chat_tools := tools |} in
    let r := chat w (length (chats (trace st))) call in
    (wait (chat_took r) ;;
     t <- clock ;;
     emit (EvChat call t) ;;
     ret (chat_result r)) st.

(** The descriptor of the one tool offered to the model.  The [[]string] under
    "required" is written as the array it is encoded to. *)
Definition trustyTool : map_string_any :=
  map_literal [
    ("type", Json.JString "function");
    ("function", Json.JObject (Json.of_list [
      ("name", Json.JString "trustyReport");
      ("description", Json.JString "Evaluate the trustworthiness of a package");
      ("parameters", Json.JObject (Json.of_list [
        ("type", Json.JString "object");
        ("properties", Json.JObject (Json.of_list [
          ("package_name", Json.JObject (Json.of_list [
            ("type", Json.JString "string");
            ("description", Json.JString "The name of the package")]));
          ("ecosystem", Json.JObject (Json.of_list [
            ("type", Json.JString "string");
            ("description", Json.JString "The ecosystem of the package")]))]));
        ("required", Json.JArray [Json.JString "package_name"; Json.JString "ecosystem"])]))]))].

(** The address [trustyReport] asks: the two arguments are put into the query
    as they are. *)
Definition report_url (packageName ecosystem : string) : string :=
  "https://api.trustypkg.dev/v1/report?package_name=" ++ packageName
  ++ "&package_type=" ++ ecosystem.

Definition trustyReport (packageName ecosystem : string) : M (string + error) :=
  emit (EvLookup packageName ecosystem) ;;
  let url := report_url packageName ecosystem in
  match NewRequest w url with
  | Some err => ret (inr err)
  | None =>
    emit (EvHttp url) ;;
    wait (do_took (Do w url)) ;;
    match do_result (Do w url) with
    | inr err => ret (inr err)
    | inl resp =>
      match Body resp with
      | inr err => ret (inr err)
      | inl body =>
        match Json.Unmarshal body with
        | None => ret (inr JsonError)
        | Some prettyJSON =>
          match Json.MarshalIndent prettyJSON with
          | None => ret (inr JsonError)
          | Some jsonString => ret (inl jsonString)
          end
        end
      end
    end
  end.

Definition responseAsMap (resp : OllamaResponseMessage) : map_string_any :=
  match Marshal w resp with
  | inr _ => None
  | inl data =>
    match Json.Unmarshal data with
    | None => None
    | Some result => result
    end
  end.

(** After a failed [Chat]: the two [log.Fatal] calls that follow every model
    turn. *)
Definition chat_failed {A} (err : error) : M A :=
  if is_DeadlineExceeded err then log_Fatal TimeoutError
  else log_Fatal (BackendError err).

Definition chatTrustyReport (ctx : Context) (messages : list map_string_any)
    (call : OllamaFunctionCall) : M (OllamaResponseMessage * option error) :=
  match as_string (index (Arguments call) "package_name") with
  | None => log_Fatal (ArgumentError package_name)
  | Some pkgName =>
    match as_string (index (Arguments call) "ecosystem") with
    | None => log_Fatal (ArgumentError ecosystem)
    | Some ecoSystem =>
      r <- trustyReport pkgName ecoSystem ;;
      match r with
      | inr err => log_Fatal (LookupError err)
      | inl trustyReply =>
        let messages := (messages ++ [map_literal [
          ("role", Json.JString "tool");
          ("content", Json.JString trustyReply)]])%list in
        r <- Chat ctx messages None ;;
        match r with
        | inr err => chat_failed err
        | inl ollamaResponse => ret (Message ollamaResponse, None)
        end
      end
    end
  end.

Definition promptBase : string :=
  " You are to help a user with selecting a dependency.
Your job is to provide a recommendation based on the user's prompt. 
You might be provided a JSON summary along with the user's prompt. Do not summarize the JSON back to the user.
Focus on whether the package is malicious or deprecated based on the provided tool input you get as JSON.
Focus less on the number of stars or forks.
If the package is malicious or deprecated, recommend a safer alternative.
If the package is safe, recommend the package.
Provide a short summary, do not summarize the tool output.
The user says: ".

Definition summaryRequest : string :=
  "Summarize the previous response in a single short paragraph. Focus on whether the package is
malicious or deprecated. If you advise to not use the package, recommend a safer alternative. If the package is safe, recommend the package.".

Definition user_message (content : string) : map_string_any :=
  map_literal [("role", Json.JString "user"); ("content", Json.JString content)].

(** The two places where [main] returns. *)
Inductive exit_point : Type :=
| DIRECT_ANSWER
    (** the model answered without a tool call *)
| DONE
    (** the summary after the tool call was printed *).

(** [main], with [os.Args[1:]] as its argument.  Loading the configuration
    and building the backend are outside this file; the backend is the
    [World]. *)
Definition main (userPrompt : list string) : M exit_point :=
  ctx <- WithTimeout (30 * time_Second) ;;
  let prompt := promptBase ++ " " ++ String.concat " " userPrompt in
  let messages := [user_message prompt] in
  let tools := [trustyTool] in
  r <- Chat ctx messages (Some tools) ;;
  match r with
  | inr err => chat_failed err
  | inl ollamaResponse =>
    let messages := (messages ++ [responseAsMap (Message ollamaResponse)])%list in
    match ToolCalls (Message ollamaResponse) with
    | [] =>
      Println ["The model did not use tools. It generated the response on its own."] ;;
      Println ["Content: "; Content (Message ollamaResponse)] ;;
      ret DIRECT_ANSWER
    | call0 :: _ =>
      let funcName := Name (Function call0) in
      if String.eqb funcName "trustyReport" then
        ctx <- WithTimeout (30 * time_Second) ;;
        log_Println "Handling trustyReport function call" ;;
        r <- chatTrustyReport ctx messages (Function call0) ;;
        let (ollamaTrustyMessage, err) := r in
        match err with
        | Some err => log_Fatal (BackendError err)
        | None =>
          log_Println "Handling trustyReport response" ;;
          let messages := [user_message (Content ollamaTrustyMessage);
                           user_message summaryRequest] in
          ctx <- WithTimeout (30 * time_Second) ;;
          r <- Chat ctx messages None ;;
          match r with
          | inr err => chat_failed err
          | inl ollamaResponse =>
            print ("Response:" ++ str newline
                   ++ Content (Message ollamaResponse) ++ str newline) ;;
            ret DONE
          end
        end
      else log_Fatal (UnexpectedToolError funcName)
    end
  end.

End Program.

Notation "x <- m ;; k" := (bind m (fun x => k))
  (at level 61, m at next level, right associativity).
Notation "m ;; k" := (bind m (fun _ => k))
  (at level 61, right associativity).

(** A run of the program from the start of the process. *)
Definition run {SC : Json.Strconv} (w : World) (userPrompt : list string)
  : result exit_point * State :=
  main w userPrompt initial.

End Trusty.

(** ** Concrete runs

    The worlds below answer the external calls with fixed values, so that the
    program can be run on them. *)

Module Scenario.
Import Bytes Trusty.

(** A [Strconv] that keeps a number as the literal it was read from. *)
Definition literal : Json.Strconv :=
  {| Json.float64 := string;
     Json.ParseFloat := fun lit => Some lit;
     Json.IsInfOrNaN := fun lit => false;
     Json.FormatFloat := fun lit => lit |}.

#[local] Existing Instance literal.

Definition call (name : string) (arguments : map_string_any) : OllamaToolCall :=
  {| Function := {| Name := name; Arguments := arguments |} |}.

Definition reply (content : string) (calls : list OllamaToolCall) : OllamaResponse :=
  {| Message := {| Content := content; ToolCalls := calls |} |}.

(** The tool call of the left-pad question. *)
Definition left_pad : OllamaToolCall :=
  call "trustyReport"
    (map_literal [("package_name", Json.JString "left-pad");
                  ("ecosystem", Json.JString "npm")]).

(** The body [{"score":0.9}]. *)
Definition score_body : string :=
  "{" ++ Json.quoted "score" ++ ":0.9}".

Definition encode_message (m : OllamaResponseMessage) : string + error :=
  inl ("{" ++ Json.quoted "role" ++ ":" ++ Json.quoted "assistant" ++ ","
       ++ Json.quoted "content" ++ ":" ++ Json.quoted (Content m) ++ "}").

(** A world whose backend answers the first turn with [first], the second with
    "looks fine" and the third with a recommendation, each after two seconds,
    and whose report endpoint answers with [answer]. *)
Definition world (first : OllamaResponse + error) (answer : DoReturn)
    (marshal : OllamaResponseMessage -> string + error) : World :=
  {| chat := fun n _ =>
       {| chat_result :=
            match n with
            | 0 => first
            | 1 => inl (reply "looks fine" [])
            | _ => inl (reply "left-pad is safe to use." [])
            end;
          chat_took := 2 * time_Second |};
     NewRequest := fun _ => None;
     Do := fun _ => answer;
     Marshal := marshal |}.

Definition answered (status : N) (body : string) : DoReturn :=
  {| do_result := inl {| StatusCode := status; Body := inl body |};
     do_took := time_Second |}.

Definition unreachable : DoReturn :=
  {| do_result := inr (Error "Get: dial tcp: i/o timeout");
     do_took := 40 * time_Second |}.

Definition question : list string := ["is"; "left-pad"; "safe"].

(** Scenario A of the specification. *)
Definition world_A : World :=
  world (inl (reply EmptyString [left_pad])) (answered 200 score_body) encode_message.

Definition direct_notice : string :=
  "The model did not use tools. It generated the response on its own.".

Definition world_direct : World :=
  world (inl (reply "left-pad is fine." [])) unreachable encode_message.

Definition world_other : World :=
  world (inl (reply EmptyString [call "otherTool" None; left_pad]))
        (answered 200 score_body) encode_message.

(** A call whose ecosystem is not a string. *)
Definition mistyped : OllamaToolCall :=
  call "trustyReport"
    (map_literal [("package_name", Json.JString "left-pad");
                  ("ecosystem", Json.JBool true)]).

Definition world_mistyped : World :=
  world (inl (reply EmptyString [mistyped])) (answered 200 score_body) encode_message.

Definition world_down : World :=
  world (inl (reply EmptyString [left_pad])) unreachable encode_message.

(** A report endpoint that answers 404 with the body [{}]. *)
Definition world_404 : World :=
  world (inl (reply EmptyString [left_pad])) (answered 404 "{}") encode_message.

(** A reply with two more tool calls after the first. *)
Definition world_three_calls : World :=
  world (inl (reply EmptyString [left_pad; call "otherTool" None; mistyped]))
        (answered 200 score_body) encode_message.

(** A world in which [json.Marshal] rejects the reply. *)
Definition world_unencodable : World :=
  world (inl (reply EmptyString [left_pad])) (answered 200 score_body)
        (fun _ => inr (Error "json: unsupported value")).



End Scenario.

(** ** Facts about bytes and UTF-8 *)

Module BytesFacts.
Import Bytes.

Lemma append_assoc (a b c : string) : (a ++ b) ++ c = a ++ (b ++ c).
Proof.
  induction a as [| x a IH]; cbn; [reflexivity | rewrite IH; reflexivity].
Qed.

Lemma append_nil_r (a : string) : a ++ EmptyString = a.
Proof.
  induction a as [| x a IH]; cbn; [reflexivity | rewrite IH; reflexivity].
Qed.

Lemma code_byte (n : N) : (n < 256)%N -> code (byte n) = n.
Proof. apply N_ascii_embedding. Qed.

(** Turn the boolean comparisons among the hypotheses into propositions. *)
Ltac reflect_bool :=
  repeat match goal with
  | H : (_ && _)%bool = true |- _ => apply andb_prop in H; destruct H
  | H : (_ || _)%bool = false |- _ => apply orb_false_elim in H; destruct H
  | H : negb _ = true |- _ => apply negb_true_iff in H
  | H : negb _ = false |- _ => apply negb_false_iff in H
  | H : (_ <=? _)%N = true |- _ => apply N.leb_le in H
  | H : (_ <=? _)%N = false |- _ => apply N.leb_gt in H
  | H : (_ <? _)%N = true |- _ => apply N.ltb_lt in H
  | H : (_ <? _)%N = false |- _ => apply N.ltb_ge in H
  | H : (_ =? _)%N = true |- _ => apply N.eqb_eq in H
  | H : (_ =? _)%N = false |- _ => apply N.eqb_neq in H
  end.

(** Decide a boolean comparison on [N] in the goal by arithmetic. *)
Ltac decide_bool :=
  repeat match goal with
  | |- context [(?a <=? ?b)%N] =>
    first [ rewrite (proj2 (N.leb_le a b)) by lia
          | rewrite (proj2 (N.leb_gt a b)) by lia ]
  | |- context [(?a <? ?b)%N] =>
    first [ rewrite (proj2 (N.ltb_lt a b)) by lia
          | rewrite (proj2 (N.ltb_ge a b)) by lia ]
  | |- context [(?a =? ?b)%N] =>
    first [ rewrite (proj2 (N.eqb_eq a b)) by lia
          | rewrite (proj2 (N.eqb_neq a b)) by lia ]
  end.

End BytesFacts.

Module Utf8Facts.
Import Bytes BytesFacts Utf8.

Lemma two_high (c0 c1 : ascii) : two c0 c1 = true -> (code c0 <? 128)%N = false.
Proof.
  unfold two, between. intros H. reflect_bool. apply N.ltb_ge. lia.
Qed.

Lemma three_high (c0 c1 c2 : ascii) :
  three c0 c1 c2 = true -> (code c0 <? 128)%N = false /\ two c0 c1 = false.
Proof.
  unfold three, two, between. intros H. reflect_bool.
  split; [apply N.ltb_ge; lia |].
  apply andb_false_iff. left. apply andb_false_iff. right. apply N.leb_gt. lia.
Qed.

Lemma four_high (c0 c1 c2 c3 : ascii) :
  four c0 c1 c2 c3 = true ->
  (code c0 <? 128)%N = false /\ two c0 c1 = false /\ three c0 c1 c2 = false.
Proof.
  unfold four, three, two, between. intros H. reflect_bool.
  split; [apply N.ltb_ge; lia |]. split.
  - apply andb_false_iff. left. apply andb_false_iff. right. apply N.leb_gt. lia.
  - apply andb_false_iff. left. apply andb_false_iff. left.
    apply andb_false_iff. right. apply N.leb_gt. lia.
Qed.

Lemma seq_len_one (c : ascii) (r : string) :
  (code c <? 128)%N = true -> seq_len (String c r) = Some 1%nat.
Proof. intros H. cbn. rewrite H. reflexivity. Qed.

Lemma seq_len_two (c0 c1 : ascii) (r : string) :
  two c0 c1 = true -> seq_len (String c0 (String c1 r)) = Some 2%nat.
Proof.
  intros H. cbn. rewrite (two_high _ _ H), H. reflexivity.
Qed.

Lemma seq_len_three (c0 c1 c2 : ascii) (r : string) :
  three c0 c1 c2 = true ->
  seq_len (String c0 (String c1 (String c2 r))) = Some 3%nat.
Proof.
  intros H. destruct (three_high _ _ _ H) as [H0 H1].
  cbn. rewrite H0, H1, H. reflexivity.
Qed.

Lemma seq_len_four (c0 c1 c2 c3 : ascii) (r : string) :
  four c0 c1 c2 c3 = true ->
  seq_len (String c0 (String c1 (String c2 (String c3 r)))) = Some 4%nat.
Proof.
  intros H. destruct (four_high _ _ _ _ H) as (H0 & H1 & H2).
  cbn. rewrite H0, H1, H2, H. reflexivity.
Qed.

(** The shapes of a string that starts with a well-formed sequence. *)
Inductive starts : nat -> string -> string -> Prop :=
| starts_one c r : (code c <? 128)%N = true -> starts 1 (String c r) r
| starts_two c0 c1 r :
    two c0 c1 = true -> starts 2 (String c0 (String c1 r)) r
| starts_three c0 c1 c2 r :
    three c0 c1 c2 = true -> starts 3 (String c0 (String c1 (String c2 r))) r
| starts_four c0 c1 c2 c3 r :
    four c0 c1 c2 c3 = true ->
    starts 4 (String c0 (String c1 (String c2 (String c3 r)))) r.

Lemma seq_len_starts (s : string) (n : nat) :
  seq_len s = Some n -> exists r, starts n s r.
Proof.
  destruct s as [| c0 r0]; [discriminate |]. cbn.
  destruct (code c0 <? 128)%N eqn:H0.
  { intros [= <-]. eexists. constructor. assumption. }
  destruct r0 as [| c1 r1]; [discriminate |].
  destruct (two c0 c1) eqn:H1.
  { intros [= <-]. eexists. constructor. assumption. }
  destruct r1 as [| c2 r2]; [discriminate |].
  destruct (three c0 c1 c2) eqn:H2.
  { intros [= <-]. eexists. constructor. assumption. }
  destruct r2 as [| c3 r3]; [discriminate |].
  destruct (four c0 c1 c2 c3) eqn:H3; [| discriminate].
  intros [= <-]. eexists. constructor. assumption.
Qed.

Lemma starts_seq_len (s r : string) (n : nat) :
  starts n s r -> seq_len s = Some n.
Proof.
  intros [c r' H | c0 c1 r' H | c0 c1 c2 r' H | c0 c1 c2 c3 r' H].
  - apply seq_len_one; assumption.
  - apply seq_len_two; assumption.
  - apply seq_len_three; assumption.
  - apply seq_len_four; assumption.
Qed.

Lemma starts_valid (s r : string) (n : nat) :
  starts n s r -> valid s = valid r.
Proof.
  intros H. pose proof (starts_seq_len _ _ _ H) as Hlen.
  destruct H; cbn [valid]; rewrite Hlen; reflexivity.
Qed.

Lemma starts_append (s r t : string) (n : nat) :
  starts n s r -> starts n (s ++ t) (r ++ t).
Proof.
  intros [c r' H | c0 c1 r' H | c0 c1 c2 r' H | c0 c1 c2 c3 r' H];
    cbn; constructor; assumption.
Qed.

(** Induction over the sequences of a valid string. *)
Lemma valid_ind (P : string -> Prop) :
  P EmptyString ->
  (forall n s r, starts n s r -> valid r = true -> P r -> P s) ->
  forall s, valid s = true -> P s.
Proof.
  intros Hnil Hstep.
  assert (forall n s, (String.length s <= n)%nat -> valid s = true -> P s) as Hall.
  { induction n as [| n IH]; intros s Hn Hs.
    - destruct s; [exact Hnil | cbn in Hn; lia].
    - destruct s as [| c r]; [exact Hnil |].
      destruct (seq_len (String c r)) as [k |] eqn:Hlen.
      + destruct (seq_len_starts _ _ Hlen) as [r' Hstarts].
        rewrite (starts_valid _ _ _ Hstarts) in Hs.
        apply (Hstep _ _ _ Hstarts Hs). apply IH; [| exact Hs].
        inversion Hstarts; subst; cbn in Hn |- *; lia.
      + cbn [valid] in Hs. rewrite Hlen in Hs. discriminate. }
  intros s. apply (Hall (String.length s)). lia.
Qed.

Lemma valid_append (a b : string) :
  valid a = true -> valid b = true -> valid (a ++ b) = true.
Proof.
  intros Ha Hb. revert a Ha.
  apply valid_ind.
  - exact Hb.
  - intros n s r Hstarts _ IH.
    rewrite (starts_valid _ _ _ (starts_append _ _ b _ Hstarts)). exact IH.
Qed.

End Utf8Facts.

Module Utf8Encode.
Import Bytes BytesFacts Utf8 Utf8Facts.

(** Name a quotient and a remainder and forget how they were computed. *)
Ltac divmod r c :=
  let q := fresh "q" in
  let m := fresh "m" in
  pose proof (N.div_mod r c ltac:(lia));
  pose proof (N.mod_lt r c ltac:(lia));
  set (q := (r / c)%N) in *; set (m := (r mod c)%N) in *; clearbody q m.

Lemma valid_ascii (c : ascii) : (code c <? 128)%N = true -> valid (str c) = true.
Proof.
  intros H. unfold str.
  rewrite (starts_valid _ _ _ (starts_one c EmptyString H)). reflexivity.
Qed.

(** Whatever [utf8.EncodeRune] writes is one well-formed sequence. *)
Lemma encode_rune_starts (r : N) :
  exists n, starts n (encode_rune r) EmptyString.
Proof.
  unfold encode_rune, str.
  destruct (r <? 128)%N eqn:H1.
  { exists 1%nat. constructor. reflect_bool. rewrite code_byte by lia.
    apply N.ltb_lt. assumption. }
  destruct (r <? 2048)%N eqn:H2.
  { exists 2%nat. constructor. reflect_bool. divmod r 64%N.
    unfold two, cont, between. rewrite !code_byte by lia.
    decide_bool. reflexivity. }
  destruct ((r <? 55296) || (57344 <=? r) && (r <? 65536))%N eqn:H3.
  { exists 3%nat. constructor. reflect_bool.
    assert (r < 65536)%N as Hr.
    { apply orb_prop in H3. destruct H3 as [H3 | H3]; reflect_bool; lia. }
    assert (r < 55296 \/ 57344 <= r)%N as Hs.
    { apply orb_prop in H3. destruct H3 as [H3 | H3]; reflect_bool; lia. }
    clear H3.
    divmod r 4096%N. divmod r 64%N. divmod q0 64%N.
    unfold three, cont, between. rewrite !code_byte by lia.
    destruct (N.eqb_spec (224 + q) 224) as [E | E];
      [| destruct (N.eqb_spec (224 + q) 237) as [E' | E']];
      decide_bool; reflexivity. }
  destruct ((65536 <=? r) && (r <? 1114112))%N eqn:H4.
  { exists 4%nat. constructor. reflect_bool.
    divmod r 262144%N. divmod r 4096%N. divmod r 64%N.
    divmod q0 64%N. divmod q1 64%N.
    unfold four, cont, between. rewrite !code_byte by lia.
    destruct (N.eqb_spec (240 + q) 240) as [E | E];
      [| destruct (N.eqb_spec (240 + q) 244) as [E' | E']];
      decide_bool; reflexivity. }
  exists 3%nat. constructor. reflexivity.
Qed.

Lemma valid_encode_rune (r : N) : valid (encode_rune r) = true.
Proof.
  destruct (encode_rune_starts r) as [n H].
  rewrite (starts_valid _ _ _ H). reflexivity.
Qed.

Lemma valid_replacement : valid replacement = true.
Proof. apply valid_encode_rune. Qed.

End Utf8Encode.

(** ** Facts about the JSON model *)

Module JsonFacts.
Import Bytes BytesFacts Utf8Facts Utf8Encode Json.

Section Facts.
Context {SC : Strconv}.

(** *** Keys in order *)

Definition key_lt (a b : string * jvalue SC) : Prop :=
  String.compare (fst a) (fst b) = Lt.

Definition sorted (m : jmap SC) : Prop := StronglySorted key_lt m.

Lemma compare_lt_trans (a b c : string) :
  String.compare a b = Lt -> String.compare b c = Lt -> String.compare a c = Lt.
Proof.
  intros Hab Hbc. apply String_as_OT.cmp_lt.
  apply String_as_OT.cmp_lt in Hab. apply String_as_OT.cmp_lt in Hbc.
  exact (String_as_OT.lt_trans _ _ _ Hab Hbc).
Qed.

Lemma compare_gt_lt (a b : string) :
  String.compare a b = Gt -> String.compare b a = Lt.
Proof.
  intros H. rewrite String.compare_antisym, H. reflexivity.
Qed.

Lemma compare_lt_gt (a b : string) :
  String.compare a b = Lt -> String.compare b a = Gt.
Proof.
  intros H. rewrite String.compare_antisym, H. reflexivity.
Qed.

(** A key above all keys of a map goes to its end. *)
Lemma insert_last (k : string) (v : jvalue SC) (m : jmap SC) :
  Forall (fun e => key_lt e (k, v)) m -> insert k v m = (m ++ [(k, v)])%list.
Proof.
  induction m as [| [k' v'] m IH]; intros Hall; [reflexivity |].
  inversion Hall as [| e l Hlt Hrest]; subst.
  unfold key_lt in Hlt. cbn [fst] in Hlt.
  cbn [insert]. rewrite (compare_lt_gt _ _ Hlt).
  rewrite (IH Hrest). reflexivity.
Qed.

Lemma insert_Forall (P : string * jvalue SC -> Prop) (k : string) (v : jvalue SC)
    (m : jmap SC) :
  P (k, v) -> Forall P m -> Forall P (insert k v m).
Proof.
  intros Hkv. induction m as [| [k' v'] m IH]; intros Hall.
  - constructor; [assumption | constructor].
  - inversion Hall as [| e l He Hrest]; subst. cbn [insert].
    destruct (String.compare k k').
    + constructor; assumption.
    + constructor; assumption.
    + constructor; [assumption | apply IH; assumption].
Qed.

Lemma insert_sorted (k : string) (v : jvalue SC) (m : jmap SC) :
  sorted m -> sorted (insert k v m).
Proof.
  unfold sorted. induction m as [| [k' v'] m IH]; intros Hs.
  - constructor; constructor.
  - inversion Hs as [| e l Hm Hall]; subst. cbn [insert].
    destruct (String.compare k k') eqn:Hcmp.
    + apply String.compare_eq_iff in Hcmp. subst k'.
      constructor; [assumption |].
      revert Hall. apply Forall_impl. intros e He. exact He.
    + constructor; [assumption |].
      constructor; [exact Hcmp |].
      revert Hall. apply Forall_impl. intros e He.
      unfold key_lt in *. cbn [fst] in *. eapply compare_lt_trans; eassumption.
    + constructor; [apply IH; assumption |].
      apply insert_Forall; [| assumption].
      unfold key_lt. cbn [fst]. apply compare_gt_lt. assumption.
Qed.

(** *** Induction on values *)

Lemma jvalue_induction (P : jvalue SC -> Prop) :
  P JNull ->
  (forall b, P (JBool b)) ->
  (forall f, P (JNumber f)) ->
  (forall s, P (JString s)) ->
  (forall l, Forall P l -> P (JArray l)) ->
  (forall m, Forall (fun kv => P (snd kv)) m -> P (JObject m)) ->
  forall v, P v.
Proof.
  intros Hnull Hbool Hnum Hstr Harr Hobj.
  fix IH 1. intros [| b | f | s | l | m].
  - exact Hnull.
  - apply Hbool.
  - apply Hnum.
  - apply Hstr.
  - apply Harr. induction l as [| x l IHl]; constructor; [apply IH | exact IHl].
  - apply Hobj. induction m as [| [k x] m IHm]; constructor; [apply IH | exact IHm].
Qed.

(** *** Values the decoder produces *)

(** [wf n v]: the decoder can have built [v] inside [n] arrays and
    objects. *)
Inductive wf : nat -> jvalue SC -> Prop :=
| wf_null n : wf n JNull
| wf_bool n b : wf n (JBool b)
| wf_number n f : good_number f -> wf n (JNumber f)
| wf_string n s : Utf8.valid s = true -> wf n (JString s)
| wf_array n l :
    (n < max_depth)%nat -> Forall (wf (S n)) l -> wf n (JArray l)
| wf_object n m :
    (n < max_depth)%nat ->
    sorted m ->
    Forall (fun kv => Utf8.valid (fst kv) = true /\ wf (S n) (snd kv)) m ->
    wf n (JObject m).

Lemma wf_supported (v : jvalue SC) : forall n, wf n v -> supported v = true.
Proof.
  induction v as [| b | f | s | l IH | m IH] using jvalue_induction;
    intros n Hwf; try reflexivity.
  - inversion Hwf as [| | n' f' [Hfin _] | | |]; subst. cbn. rewrite Hfin. reflexivity.
  - inversion Hwf as [| | | | n' l' _ Hall |]; subst. cbn [supported].
    apply forallb_forall. intros x Hx.
    rewrite Forall_forall in IH, Hall. apply (IH x Hx (S n)). apply Hall. assumption.
  - inversion Hwf as [| | | | | n' m' _ _ Hall]; subst. cbn [supported].
    apply forallb_forall. intros x Hx.
    rewrite Forall_forall in IH, Hall. apply (IH x Hx (S n)). apply Hall. assumption.
Qed.

Lemma sorted_below (acc rest : jmap SC) (e : string * jvalue SC) :
  sorted (acc ++ e :: rest)%list -> Forall (fun e' => key_lt e' e) acc.
Proof.
  unfold sorted. induction acc as [| e' acc IH]; intros Hs.
  - constructor.
  - cbn in Hs. inversion Hs as [| e'' l Hl Hall]; subst.
    constructor; [| apply IH; assumption].
    rewrite Forall_app in Hall. destruct Hall as [_ Hall].
    inversion Hall; assumption.
Qed.

(** *** The tokens of a value *)

Definition element_tokens (tokens : jvalue SC -> list (token SC)) :=
  fix elements (l : list (jvalue SC)) : list (token SC) :=
    match l with
    | [] => []
    | y :: l' => (TComma :: tokens y ++ elements l')%list
    end.

Definition member_tokens (tokens : jvalue SC -> list (token SC)) :=
  fix members (l : list (string * jvalue SC)) : list (token SC) :=
    match l with
    | [] => []
    | (k, y) :: l' => (TComma :: TString k :: TColon :: tokens y ++ members l')%list
    end.

Fixpoint tokens (v : jvalue SC) : list (token SC) :=
  match v with
  | JNull => [TNull]
  | JBool true => [TTrue]
  | JBool false => [TFalse]
  | JNumber f => [TNumber f]
  | JString s => [TString s]
  | JArray [] => [TLBrack; TRBrack]
  | JArray (x :: xs) =>
    (TLBrack :: tokens x ++ element_tokens tokens xs ++ [TRBrack])%list
  | JObject [] => [TLBrace; TRBrace]
  | JObject ((k, x) :: m) =>
    (TLBrace :: TString k :: TColon :: tokens x
       ++ member_tokens tokens m ++ [TRBrace])%list
  end.

(** Tokens with which a value can start. *)
Definition opens_value (t : token SC) : bool :=
  match t with
  | TRBrace | TRBrack | TColon | TComma => false
  | _ => true
  end.

Lemma tokens_head (v : jvalue SC) :
  exists t r, tokens v = t :: r /\ opens_value t = true.
Proof.
  destruct v as [| [|] | f | s | [| x xs] | [| [k x] m]]; cbn;
    eexists; eexists; (split; [reflexivity | reflexivity]).
Qed.

Lemma value_enters_array (stack : list (frame SC)) (t : token SC)
    (r : list (token SC)) :
  (length stack < max_depth)%nat ->
  opens_value t = true ->
  value stack (TLBrack :: t :: r) = value (FArray [] :: stack) (t :: r).
Proof.
  intros Hdepth H. cbn [value]. rewrite (proj2 (Nat.ltb_lt _ _) Hdepth).
  destruct t; try discriminate H; reflexivity.
Qed.

Lemma value_enters_object (stack : list (frame SC)) (k : string)
    (r : list (token SC)) :
  (length stack < max_depth)%nat ->
  value stack (TLBrace :: TString k :: TColon :: r)
  = value (FObject [] k :: stack) r.
Proof.
  intros Hdepth. cbn [value]. rewrite (proj2 (Nat.ltb_lt _ _) Hdepth).
  reflexivity.
Qed.

Lemma value_empty_array (stack : list (frame SC)) (r : list (token SC)) :
  (length stack < max_depth)%nat ->
  value stack (TLBrack :: TRBrack :: r) = after (JArray []) stack r.
Proof.
  intros Hdepth. cbn [value]. rewrite (proj2 (Nat.ltb_lt _ _) Hdepth).
  reflexivity.
Qed.

Lemma value_empty_object (stack : list (frame SC)) (r : list (token SC)) :
  (length stack < max_depth)%nat ->
  value stack (TLBrace :: TRBrace :: r) = after (JObject []) stack r.
Proof.
  intros Hdepth. cbn [value]. rewrite (proj2 (Nat.ltb_lt _ _) Hdepth).
  reflexivity.
Qed.

(** The decoder reads the tokens of a well-formed value back as that value. *)
Lemma value_tokens (v : jvalue SC) :
  forall (stack : list (frame SC)) (ts : list (token SC)),
    wf (length stack) v ->
    value stack (tokens v ++ ts) = after v stack ts.
Proof.
  induction v as [| b | f | s | l IH | m IH] using jvalue_induction;
    intros stack ts Hwf.
  - reflexivity.
  - destruct b; reflexivity.
  - reflexivity.
  - reflexivity.
  - inversion Hwf as [| | | | n l' Hdepth Hall |]; subst.
    destruct l as [| x xs]; [apply value_empty_array; assumption |].
    inversion IH as [| x' xs' IHx IHxs]; subst.
    inversion Hall as [| x' xs' Hx Hxs]; subst.
    assert (forall xs,
              Forall (fun v => forall stack ts, wf (length stack) v ->
                        value stack (tokens v ++ ts) = after v stack ts) xs ->
              Forall (wf (S (length stack))) xs ->
              forall es x ts,
                after x (FArray es :: stack)
                  (element_tokens tokens xs ++ TRBrack :: ts)
                = after (JArray (es ++ x :: xs)) stack ts) as Htail.
    { clear. induction xs as [| y xs IHxs]; intros IH Hall es x ts.
      - reflexivity.
      - inversion IH as [| y' xs' IHy IHrest]; subst.
        inversion Hall as [| y' xs' Hy Hrest]; subst.
        cbn [element_tokens app after]. rewrite <- app_assoc.
        rewrite (IHy (FArray (es ++ [x]) :: stack) _ Hy).
        rewrite (IHxs IHrest Hrest).
        rewrite <- app_assoc. reflexivity. }
    cbn [tokens].
    destruct (tokens_head x) as (t & r & Hhead & Hopens).
    change ((TLBrack :: tokens x ++ element_tokens tokens xs ++ [TRBrack]) ++ ts)%list
      with (TLBrack :: (tokens x ++ element_tokens tokens xs ++ [TRBrack]) ++ ts)%list.
    rewrite <- !app_assoc. rewrite Hhead. cbn [app].
    rewrite (value_enters_array _ _ _ Hdepth Hopens).
    change (t :: r ++ element_tokens tokens xs ++ TRBrack :: ts)%list
      with ((t :: r) ++ element_tokens tokens xs ++ TRBrack :: ts)%list.
    rewrite <- Hhead. rewrite (IHx (FArray [] :: stack) _ Hx).
    apply (Htail xs IHxs Hxs []).
  - inversion Hwf as [| | | | | n m' Hdepth Hsorted Hall]; subst.
    destruct m as [| [k x] m]; [apply value_empty_object; assumption |].
    inversion IH as [| e m' IHx IHm]; subst. cbn [snd] in IHx.
    inversion Hall as [| e m' [_ Hx] Hm]; subst. cbn [snd] in Hx.
    assert (forall rest,
              Forall (fun kv => forall stack ts, wf (length stack) (snd kv) ->
                        value stack (tokens (snd kv) ++ ts) = after (snd kv) stack ts)
                     rest ->
              Forall (fun kv => Utf8.valid (fst kv) = true
                                /\ wf (S (length stack)) (snd kv)) rest ->
              forall acc k x ts,
                sorted (acc ++ (k, x) :: rest)%list ->
                after x (FObject acc k :: stack)
                  (member_tokens tokens rest ++ TRBrace :: ts)
                = after (JObject (acc ++ (k, x) :: rest)) stack ts) as Htail.
    { clear. induction rest as [| [k' y] rest IHrest]; intros IH Hall acc k x ts Hs.
      - cbn [member_tokens app after].
        rewrite (insert_last _ _ _ (sorted_below _ _ _ Hs)). reflexivity.
      - inversion IH as [| e m' IHy IHm]; subst. cbn [snd] in IHy.
        inversion Hall as [| e m' [_ Hy] Hm]; subst. cbn [snd] in Hy.
        cbn [member_tokens app after]. rewrite <- app_assoc.
        rewrite (IHy (FObject (insert k x acc) k' :: stack) _ Hy).
        rewrite (insert_last _ _ _ (sorted_below _ _ _ Hs)).
        rewrite (IHrest IHm Hm).
        + rewrite <- app_assoc. reflexivity.
        + rewrite <- app_assoc. exact Hs. }
    cbn [tokens app]. rewrite <- !app_assoc.
    rewrite (value_enters_object _ _ _ Hdepth).
    rewrite (IHx (FObject [] k :: stack) _ Hx).
    apply (Htail m IHm Hm [] k x ts). exact Hsorted.
Qed.

(** *** What the decoder builds is well formed *)

Definition good_token (t : token SC) : Prop :=
  match t with
  | TString s => Utf8.valid s = true
  | TNumber f => good_number f
  | _ => True
  end.

(** A frame that lies [n] deep holds values built [n] deep. *)
Definition good_frame (n : nat) (fr : frame SC) : Prop :=
  match fr with
  | FArray elems => Forall (wf n) elems
  | FObject m key =>
    sorted m
    /\ Forall (fun kv => Utf8.valid (fst kv) = true /\ wf n (snd kv)) m
    /\ Utf8.valid key = true
  end.

Fixpoint good_stack (stack : list (frame SC)) : Prop :=
  match stack with
  | [] => True
  | fr :: rest =>
    (length rest < max_depth)%nat
    /\ good_frame (S (length rest)) fr
    /\ good_stack rest
  end.

Lemma wf_empty_array (n : nat) : (n < max_depth)%nat -> wf n (JArray []).
Proof. intros H. constructor; [exact H | constructor]. Qed.

Lemma wf_empty_object (n : nat) : (n < max_depth)%nat -> wf n (JObject []).
Proof. intros H. constructor; [exact H | constructor | constructor]. Qed.

Lemma wf_close_array (n : nat) (elems : list (jvalue SC)) (v : jvalue SC) :
  (n < max_depth)%nat ->
  Forall (wf (S n)) elems -> wf (S n) v -> wf n (JArray (elems ++ [v])).
Proof.
  intros Hn Helems Hv. constructor; [exact Hn |].
  apply Forall_app. split; [exact Helems | constructor; [exact Hv | constructor]].
Qed.

Lemma good_frame_insert (n : nat) (m : jmap SC) (k k' : string) (v : jvalue SC) :
  good_frame n (FObject m k) -> wf n v -> Utf8.valid k' = true ->
  good_frame n (FObject (insert k v m) k').
Proof.
  intros (Hs & Hall & Hk) Hv Hk'. repeat split.
  - apply insert_sorted. exact Hs.
  - apply insert_Forall; [split; assumption | exact Hall].
  - exact Hk'.
Qed.

Lemma wf_close_object (n : nat) (m : jmap SC) (k : string) (v : jvalue SC) :
  (n < max_depth)%nat ->
  good_frame (S n) (FObject m k) -> wf (S n) v -> wf n (JObject (insert k v m)).
Proof.
  intros Hn (Hs & Hall & Hk) Hv. constructor.
  - exact Hn.
  - apply insert_sorted. exact Hs.
  - apply insert_Forall; [split; assumption | exact Hall].
Qed.

Lemma decode_wf (n : nat) :
  forall ts : list (token SC),
    (length ts <= n)%nat ->
    Forall good_token ts ->
    (forall stack v,
       good_stack stack -> value stack ts = Some v -> wf 0 v)
    /\ (forall v0 stack v,
          wf (length stack) v0 -> good_stack stack ->
          after v0 stack ts = Some v -> wf 0 v).
Proof.
  induction n as [| n IH]; intros ts Hlen Hgood.
  - destruct ts; [| cbn in Hlen; lia]. split.
    + intros stack v _ H. discriminate H.
    + intros v0 [| [es | m k] stack] v Hv0 _ H; [| discriminate H ..].
      injection H as <-. exact Hv0.
  - destruct ts as [| t r].
    { split.
      + intros stack v _ H. discriminate H.
      + intros v0 [| [es | m k] stack] v Hv0 _ H; [| discriminate H ..].
        injection H as <-. exact Hv0. }
    cbn in Hlen. inversion Hgood as [| t' r' Ht Hr]; subst.
    destruct (IH r ltac:(lia) Hr) as [IHvalue IHafter].
    split.
    + intros stack v Hstack H.
      destruct t; cbn [value] in H; try discriminate H.
      * destruct (Nat.ltb_spec (length stack) max_depth) as [Hdepth | _];
          [| discriminate H].
        destruct r as [| t1 r1]; [discriminate H |].
        destruct t1; try discriminate H.
        -- inversion Hr as [| t' r' _ Hr1]; subst.
           destruct (IH r1 ltac:(cbn in Hlen |- *; lia) Hr1) as [_ IHafter1].
           apply (IHafter1 _ _ _ (wf_empty_object _ Hdepth) Hstack H).
        -- destruct r1 as [| t2 r2]; [discriminate H |].
           destruct t2; try discriminate H.
           inversion Hr as [| t' r' Hk Hr1]; subst.
           inversion Hr1 as [| t' r' _ Hr2]; subst.
           destruct (IH r2 ltac:(cbn in Hlen |- *; lia) Hr2) as [IHvalue2 _].
           apply (IHvalue2 (FObject [] s :: stack) v); [| exact H].
           cbn [good_stack good_frame]. repeat split; try assumption; constructor.
      * destruct (Nat.ltb_spec (length stack) max_depth) as [Hdepth | _];
          [| discriminate H].
        destruct r as [| t1 r1]; [discriminate H |].
        assert (good_stack (FArray [] :: stack)) as Hstack'.
        { cbn [good_stack good_frame]. repeat split; try assumption; constructor. }
        destruct t1; try exact (IHvalue _ _ Hstack' H).
        inversion Hr as [| t' r' _ Hr1]; subst.
        destruct (IH r1 ltac:(cbn in Hlen |- *; lia) Hr1) as [_ IHafter1].
        apply (IHafter1 _ _ _ (wf_empty_array _ Hdepth) Hstack H).
      * apply (IHafter _ _ _ (wf_string _ _ Ht) Hstack H).
      * apply (IHafter _ _ _ (wf_number _ _ Ht) Hstack H).
      * apply (IHafter _ _ _ (wf_bool _ true) Hstack H).
      * apply (IHafter _ _ _ (wf_bool _ false) Hstack H).
      * apply (IHafter _ _ _ (wf_null _) Hstack H).
    + intros v0 stack v Hv0 Hstack H.
      destruct stack as [| [es | m k] stack]; [discriminate H | |];
        cbn [good_stack length] in Hstack, Hv0;
        destruct Hstack as (Hdepth & Hfr & Hrest).
      * destruct t; cbn [after] in H; try discriminate H.
        -- apply (IHafter _ _ _ (wf_close_array _ _ _ Hdepth Hfr Hv0) Hrest H).
        -- apply (IHvalue (FArray (es ++ [v0]) :: stack) v); [| exact H].
           cbn [good_stack good_frame]. repeat split; try assumption.
           apply Forall_app. split; [exact Hfr | constructor; [exact Hv0 | constructor]].
      * destruct t; cbn [after] in H; try discriminate H.
        -- apply (IHafter _ _ _ (wf_close_object _ _ _ _ Hdepth Hfr Hv0) Hrest H).
        -- destruct r as [| t1 r1]; [discriminate H |].
           destruct t1; try discriminate H.
           destruct r1 as [| t2 r2]; [discriminate H |].
           destruct t2; try discriminate H.
           inversion Hr as [| t' r' Hk' Hr1]; subst.
           inversion Hr1 as [| t' r' _ Hr2]; subst.
           destruct (IH r2 ltac:(cbn in Hlen |- *; lia) Hr2) as [IHvalue2 _].
           apply (IHvalue2 (FObject (insert k v0 m) s :: stack) v); [| exact H].
           cbn [good_stack length]. split; [exact Hdepth | split; [| exact Hrest]].
           apply good_frame_insert; assumption.
Qed.

End Facts.
End JsonFacts.

Module LexFacts.
Import Bytes BytesFacts Utf8Facts Utf8Encode Json JsonFacts.

Section Lexing.
Context {SC : Strconv}.

Definition state_ok (st : lstate) : Prop :=
  match st with
  | LString acc => Utf8.valid acc = true
  | _ => True
  end.

Lemma cons_token_some (t : token SC) (x : option (list (token SC)))
    (ts : list (token SC)) :
  cons_token t x = Some ts -> exists ts', x = Some ts' /\ ts = t :: ts'.
Proof.
  destruct x as [ts' |]; [| discriminate]. intros [= <-].
  exists ts'. split; reflexivity.
Qed.

Lemma emit_number_some (lit : string) (x : option (list (token SC)))
    (ts : list (token SC)) :
  emit_number lit x = Some ts ->
  exists f ts',
    number_literal lit = true /\ ParseFloat lit = Some f
    /\ x = Some ts' /\ ts = TNumber f :: ts'.
Proof.
  unfold emit_number, number_token.
  destruct (number_literal lit); [| discriminate].
  destruct (ParseFloat lit) as [f |]; [| discriminate]. cbn.
  intros H. destruct (cons_token_some _ _ _ H) as (ts' & Hx & Hts).
  exists f, ts'. repeat split; assumption.
Qed.

Lemma lex_number_step (acc : string) (c : ascii) (r : string) :
  lex (LNumber acc) (String c r)
  = if is_number_char c then lex (LNumber (acc ++ str c)) r
    else emit_number acc (lex LStart (String c r)).
Proof. reflexivity. Qed.

Lemma valid_two (c0 c1 : ascii) :
  Utf8.two c0 c1 = true -> Utf8.valid (String c0 (str c1)) = true.
Proof.
  intros H. unfold str.
  rewrite (starts_valid _ _ _ (starts_two c0 c1 EmptyString H)). reflexivity.
Qed.

Lemma valid_three (c0 c1 c2 : ascii) :
  Utf8.three c0 c1 c2 = true ->
  Utf8.valid (String c0 (String c1 (str c2))) = true.
Proof.
  intros H. unfold str.
  rewrite (starts_valid _ _ _ (starts_three c0 c1 c2 EmptyString H)). reflexivity.
Qed.

Lemma valid_four (c0 c1 c2 c3 : ascii) :
  Utf8.four c0 c1 c2 c3 = true ->
  Utf8.valid (String c0 (String c1 (String c2 (str c3)))) = true.
Proof.
  intros H. unfold str.
  rewrite (starts_valid _ _ _ (starts_four c0 c1 c2 c3 EmptyString H)). reflexivity.
Qed.

Lemma simple_escape_ascii (e x : ascii) :
  simple_escape e = Some x -> Utf8.valid (str x) = true.
Proof.
  destruct e as [[] [] [] [] [] [] [] []]; cbn; intros H;
    try discriminate H; injection H as <-; reflexivity.
Qed.

Ltac valid_text :=
  cbn [state_ok];
  repeat first
    [ assumption
    | reflexivity
    | apply valid_append
    | apply valid_encode_rune
    | apply valid_replacement
    | eapply simple_escape_ascii; eassumption
    | apply valid_ascii
    | apply valid_two
    | apply valid_three
    | apply valid_four ].

(** Use the induction hypothesis [Hrec] on what remains of the input. *)
Ltac by_rest Hrec Hlen H :=
  eapply Hrec; [ | | exact H];
  [ cbn [String.length] in Hlen |- *; lia | valid_text ].

Ltac after_token Hrec Hlen H :=
  let ts' := fresh "ts" in
  let Hx := fresh "Hx" in
  apply cons_token_some in H; destruct H as (ts' & Hx & ->);
  constructor; [valid_text; exact I | by_rest Hrec Hlen Hx].

(** Go through the bytes a hypothesis still looks at. *)
Ltac crunch Hrec Hlen H :=
  cbv beta iota in H;
  first
    [ discriminate H
    | by_rest Hrec Hlen H
    | after_token Hrec Hlen H
    | match type of H with
      | match ?r with EmptyString => _ | String _ _ => _ end = _ =>
        let a := fresh "a" in
        destruct r as [| a r];
        [ crunch Hrec Hlen H
        | destruct a as [[] [] [] [] [] [] [] []]; crunch Hrec Hlen H ]
      end ].

Hypothesis laws : lawful SC.

(** Every string token of the scanner is valid UTF-8 and every number token
    is a number that can be written back. *)
Lemma lex_good (n : nat) :
  forall (s : string) (st : lstate) (ts : list (token SC)),
    (String.length s <= n)%nat ->
    state_ok st ->
    lex st s = Some ts ->
    Forall good_token ts.
Proof.
  induction n as [| n Hrec]; intros s st ts Hlen Hok H.
  - destruct s; [| cbn in Hlen; lia].
    destruct st as [| acc | acc]; cbn [lex] in H.
    + injection H as <-. constructor.
    + discriminate H.
    + destruct (emit_number_some _ _ _ H) as (f & ts' & Hlit & Hparse & Hx & ->).
      injection Hx as <-. constructor; [| constructor].
      exact (laws _ _ Hlit Hparse).
  - destruct s as [| c r].
    { destruct st as [| acc | acc]; cbn [lex] in H.
      + injection H as <-. constructor.
      + discriminate H.
      + destruct (emit_number_some _ _ _ H) as (f & ts' & Hlit & Hparse & Hx & ->).
        injection Hx as <-. constructor; [| constructor].
        exact (laws _ _ Hlit Hparse). }
    assert (forall ts, lex LStart (String c r) = Some ts -> Forall good_token ts)
      as Hstart.
    { clear H ts. intros ts H. cbn [lex] in H.
      destruct c as [[] [] [] [] [] [] [] []];
        cbn -[lex cons_token emit_number] in H;
        crunch Hrec Hlen H. }
    destruct st as [| acc | acc].
    + exact (Hstart _ H).
    + cbn [state_ok] in Hok. cbn [lex] in H.
      destruct (code c =? 34)%N eqn:E1.
      { apply cons_token_some in H. destruct H as (ts' & Hx & ->).
        constructor; [exact Hok | by_rest Hrec Hlen Hx]. }
      destruct (code c =? 92)%N eqn:E2.
      { destruct r as [| e r1]; [discriminate H |].
        destruct (code e =? 117)%N eqn:E3.
        - destruct r1 as [| h1 [| h2 [| h3 [| h4 r5]]]]; try discriminate H.
          destruct (hex4 h1 h2 h3 h4) as [u |]; [| discriminate H].
          destruct (is_surrogate u).
          + destruct r5 as [| b [| e' [| g1 [| g2 [| g3 [| g4 r11]]]]]];
              try by_rest Hrec Hlen H.
            destruct (if (code b =? 92)%N && (code e' =? 117)%N
                      then hex4 g1 g2 g3 g4 else None) as [u' |];
              [| by_rest Hrec Hlen H].
            destruct (surrogate_pair u u'); by_rest Hrec Hlen H.
          + by_rest Hrec Hlen H.
        - destruct (simple_escape e) as [x |] eqn:Hx; [| discriminate H].
          by_rest Hrec Hlen H. }
      destruct (code c <? 32)%N eqn:E3; [discriminate H |].
      destruct (code c <? 128)%N eqn:E4; [by_rest Hrec Hlen H |].
      destruct (Utf8.seq_len (String c r)) as [k |] eqn:Hseq;
        [| by_rest Hrec Hlen H].
      destruct (seq_len_starts _ _ Hseq) as [r' Hstarts].
      inversion Hstarts; subst; cbv beta iota in H; by_rest Hrec Hlen H.
    + rewrite lex_number_step in H.
      destruct (is_number_char c).
      * by_rest Hrec Hlen H.
      * destruct (emit_number_some _ _ _ H) as (f & ts' & Hlit & Hparse & Hx & ->).
        constructor; [exact (laws _ _ Hlit Hparse) | exact (Hstart _ Hx)].
Qed.

(** *** Scanning what the encoder wrote *)

Lemma lex_safe (acc : string) (c : ascii) (rest : string) :
  html_safe c = true ->
  lex (LString acc) (String c rest) = lex (LString (acc ++ str c)) rest.
Proof.
  intros H. destruct c as [[] [] [] [] [] [] [] []];
    vm_compute in H; try discriminate H; reflexivity.
Qed.

Lemma lex_escape_byte (acc : string) (c : ascii) (rest : string) :
  (code c <? 128)%N = true ->
  html_safe c = false ->
  lex (LString acc) (escape_byte c ++ rest) = lex (LString (acc ++ str c)) rest.
Proof.
  intros H1 H2. destruct c as [[] [] [] [] [] [] [] []];
    vm_compute in H1; try discriminate H1;
    vm_compute in H2; try discriminate H2; reflexivity.
Qed.

(** One step of the scanner inside a string, on a byte that is not ASCII. *)
Lemma lex_string_high (acc : string) (c : ascii) (r : string) :
  (code c <? 128)%N = false ->
  lex (LString acc) (String c r)
  = match Utf8.seq_len (String c r), r with
    | Some 2, String c1 r2 =>
      lex (LString (acc ++ String c (str c1))) r2
    | Some 3, String c1 (String c2 r3) =>
      lex (LString (acc ++ String c (String c1 (str c2)))) r3
    | Some 4, String c1 (String c2 (String c3 r4)) =>
      lex (LString (acc ++ String c (String c1 (String c2 (str c3))))) r4
    | _, _ => lex (LString (acc ++ Utf8.replacement)) r
    end.
Proof.
  intros H. cbn [lex]. rewrite H.
  destruct (code c =? 34)%N eqn:E1; [reflect_bool; lia |].
  destruct (code c =? 92)%N eqn:E2; [reflect_bool; lia |].
  destruct (code c <? 32)%N eqn:E3; [reflect_bool; lia |].
  reflexivity.
Qed.

Lemma lex_two (acc : string) (c0 c1 : ascii) (rest : string) :
  Utf8.two c0 c1 = true ->
  lex (LString acc) (String c0 (String c1 rest))
  = lex (LString (acc ++ String c0 (str c1))) rest.
Proof.
  intros H. rewrite (lex_string_high _ _ _ (two_high _ _ H)).
  rewrite (seq_len_two c0 c1 rest H). reflexivity.
Qed.

Lemma lex_three (acc : string) (c0 c1 c2 : ascii) (rest : string) :
  Utf8.three c0 c1 c2 = true ->
  lex (LString acc) (String c0 (String c1 (String c2 rest)))
  = lex (LString (acc ++ String c0 (String c1 (str c2)))) rest.
Proof.
  intros H. rewrite (lex_string_high _ _ _ (proj1 (three_high _ _ _ H))).
  rewrite (seq_len_three c0 c1 c2 rest H). reflexivity.
Qed.

Lemma lex_four (acc : string) (c0 c1 c2 c3 : ascii) (rest : string) :
  Utf8.four c0 c1 c2 c3 = true ->
  lex (LString acc) (String c0 (String c1 (String c2 (String c3 rest))))
  = lex (LString (acc ++ String c0 (String c1 (String c2 (str c3))))) rest.
Proof.
  intros H. rewrite (lex_string_high _ _ _ (proj1 (four_high _ _ _ _ H))).
  rewrite (seq_len_four c0 c1 c2 c3 rest H). reflexivity.
Qed.

Lemma code_inj (c : ascii) (n : N) : code c = n -> c = byte n.
Proof.
  intros <-. unfold byte, code. symmetry. apply ascii_N_embedding.
Qed.

Lemma lex_separator (acc : string) (c0 c1 c2 : ascii) (rest : string) :
  line_separator c0 c1 c2 = true ->
  lex (LString acc)
    (String backslash (String "u" (String "2" (String "0" (String "2"
       (String (hex_digit (code c2 mod 16)) rest))))))
  = lex (LString (acc ++ String c0 (String c1 (str c2)))) rest.
Proof.
  unfold line_separator. intros H. reflect_bool.
  apply code_inj in H. apply code_inj in H1. subst c0 c1.
  apply orb_prop in H0. destruct H0 as [H0 | H0]; reflect_bool;
    apply code_inj in H0; subst c2; reflexivity.
Qed.

(** The scanner reads an escaped string back. *)
Lemma lex_escape (s : string) :
  Utf8.valid s = true ->
  forall (acc rest : string),
    lex (LString acc) (escape s ++ String quote rest)
    = cons_token (TString (acc ++ s)) (lex LStart rest).
Proof.
  revert s.
  apply (valid_ind (fun s => forall acc rest,
           lex (LString acc) (escape s ++ String quote rest)
           = cons_token (TString (acc ++ s)) (lex LStart rest))).
  - intros acc rest. rewrite append_nil_r. reflexivity.
  - intros n s r Hstarts _ IH acc rest.
    destruct Hstarts as [c r H | c0 c1 r H | c0 c1 c2 r H | c0 c1 c2 c3 r H].
    + cbn [escape]. rewrite H.
      destruct (html_safe c) eqn:Hsafe.
      * cbn [append]. rewrite (lex_safe _ _ _ Hsafe), IH, append_assoc.
        reflexivity.
      * rewrite append_assoc, (lex_escape_byte _ _ _ H Hsafe), IH, append_assoc.
        reflexivity.
    + cbn [escape]. rewrite (two_high _ _ H), (seq_len_two _ _ _ H).
      cbn [append]. rewrite (lex_two _ _ _ _ H), IH, append_assoc.
      reflexivity.
    + cbn [escape]. rewrite (proj1 (three_high _ _ _ H)), (seq_len_three _ _ _ _ H).
      destruct (line_separator c0 c1 c2) eqn:Hsep.
      * cbn [append]. rewrite (lex_separator _ _ _ _ _ Hsep), IH, append_assoc.
        reflexivity.
      * cbn [append]. rewrite (lex_three _ _ _ _ _ H), IH, append_assoc.
        reflexivity.
    + cbn [escape]. rewrite (proj1 (four_high _ _ _ _ H)), (seq_len_four _ _ _ _ _ H).
      cbn [append]. rewrite (lex_four _ _ _ _ _ _ H), IH, append_assoc.
      reflexivity.
Qed.

Lemma lex_quoted (s rest : string) :
  Utf8.valid s = true ->
  lex LStart (quoted s ++ rest) = cons_token (TString s) (lex LStart rest).
Proof.
  intros H. unfold quoted. cbn [append]. rewrite append_assoc.
  change (lex LStart (String quote (escape s ++ str quote ++ rest)))
    with (lex (LString EmptyString) (escape s ++ String quote rest)).
  apply (lex_escape s H EmptyString rest).
Qed.

End Lexing.
End LexFacts.

(** ** The encoder and the decoder together *)

Module PrintFacts.
Import Bytes BytesFacts Utf8Facts Utf8Encode Json JsonFacts LexFacts.

(** *** Number literals *)

Fixpoint number_chars (s : string) : bool :=
  match s with
  | EmptyString => true
  | String c r => is_number_char c && number_chars r
  end.

Lemma digit_number_char (c : ascii) : is_digit c = true -> is_number_char c = true.
Proof. intros H. unfold is_number_char. rewrite H. reflexivity. Qed.

Lemma code_number_char (c : ascii) (n : N) :
  (code c =? n)%N = true ->
  In n [43; 45; 46; 69; 101]%N -> is_number_char c = true.
Proof.
  intros H Hin. apply N.eqb_eq in H. unfold is_number_char. rewrite H.
  cbn in Hin. apply orb_true_iff. right.
  destruct Hin as [<- | [<- | [<- | [<- | [<- | []]]]]]; reflexivity.
Qed.

Ltac number_char :=
  first
    [ apply digit_number_char; assumption
    | eapply code_number_char; [eassumption | cbn; tauto] ].

Lemma all_digits_chars (s : string) : all_digits s = true -> number_chars s = true.
Proof.
  induction s as [| c r IH]; [reflexivity |]. cbn.
  intros H. apply andb_prop in H. destruct H as [Hc Hr].
  rewrite (digit_number_char _ Hc), (IH Hr). reflexivity.
Qed.

Lemma exponent_chars (s : string) : exponent s = true -> number_chars s = true.
Proof.
  destruct s as [| c r]; [reflexivity |]. unfold exponent.
  destruct ((code c =? 43)%N || (code c =? 45)%N) eqn:Hsign.
  - intros H. cbn [number_chars].
    assert (is_number_char c = true) as ->.
    { apply orb_prop in Hsign. destruct Hsign as [Hs | Hs]; number_char. }
    destruct r; [discriminate H |]. apply all_digits_chars. exact H.
  - apply all_digits_chars.
Qed.

Lemma fraction_chars (s : string) (seen : bool) :
  fraction seen s = true -> number_chars s = true.
Proof.
  revert seen. induction s as [| c r IH]; intros seen; [reflexivity |].
  cbn [fraction number_chars].
  destruct (is_digit c) eqn:Hd.
  - intros H. rewrite (digit_number_char _ Hd), (IH _ H). reflexivity.
  - destruct ((code c =? 69)%N || (code c =? 101)%N) eqn:He; [| discriminate].
    intros H. apply andb_prop in H. destruct H as [_ H].
    assert (is_number_char c = true) as ->.
    { apply orb_prop in He. destruct He as [Hs | Hs]; number_char. }
    apply exponent_chars. exact H.
Qed.

Lemma integer_tail_chars (s : string) :
  integer_tail s = true -> number_chars s = true.
Proof.
  induction s as [| c r IH]; [reflexivity |].
  cbn [integer_tail number_chars].
  destruct (is_digit c) eqn:Hd.
  - intros H. rewrite (digit_number_char _ Hd), (IH H). reflexivity.
  - destruct (code c =? 46)%N eqn:Hdot.
    + intros H. assert (is_number_char c = true) as -> by number_char.
      apply (fraction_chars _ _ H).
    + destruct ((code c =? 69)%N || (code c =? 101)%N) eqn:He; [| discriminate].
      intros H. assert (is_number_char c = true) as ->.
      { apply orb_prop in He. destruct He as [Hs | Hs]; number_char. }
      apply exponent_chars. exact H.
Qed.

Lemma after_zero_chars (s : string) :
  after_zero s = true -> number_chars s = true.
Proof.
  destruct s as [| c r]; [reflexivity |].
  cbn [after_zero number_chars].
  destruct (code c =? 46)%N eqn:Hdot.
  - intros H. assert (is_number_char c = true) as -> by number_char.
    apply (fraction_chars _ _ H).
  - destruct ((code c =? 69)%N || (code c =? 101)%N) eqn:He; [| discriminate].
    intros H. assert (is_number_char c = true) as ->.
    { apply orb_prop in He. destruct He as [Hs | Hs]; number_char. }
    apply exponent_chars. exact H.
Qed.

Lemma unsigned_literal_chars (s : string) :
  unsigned_literal s = true ->
  number_chars s = true
  /\ exists c r, s = String c r /\ is_digit c = true.
Proof.
  destruct s as [| c r]; [discriminate |].
  cbn [unsigned_literal number_chars].
  destruct (code c =? 48)%N eqn:Hzero.
  - intros H.
    assert (is_digit c = true) as Hd.
    { apply N.eqb_eq in Hzero. unfold is_digit, between. rewrite Hzero. reflexivity. }
    rewrite (digit_number_char _ Hd), (after_zero_chars _ H).
    split; [reflexivity |]. exists c, r. split; [reflexivity | exact Hd].
  - destruct (between 49 57 c) eqn:Hnz; [| discriminate].
    intros H.
    assert (is_digit c = true) as Hd.
    { unfold is_digit, between in *. reflect_bool.
      apply andb_true_iff. split; [apply N.leb_le | apply N.leb_le]; lia. }
    rewrite (digit_number_char _ Hd), (integer_tail_chars _ H).
    split; [reflexivity |]. exists c, r. split; [reflexivity | exact Hd].
Qed.

Lemma number_literal_chars (s : string) :
  number_literal s = true ->
  number_chars s = true
  /\ exists c r,
       s = String c r /\ (is_digit c || (code c =? 45)%N) = true.
Proof.
  destruct s as [| c r]; [discriminate |].
  cbn [number_literal].
  destruct (code c =? 45)%N eqn:Hminus.
  - intros H. destruct (unsigned_literal_chars _ H) as [Hr _].
    cbn [number_chars]. rewrite Hr.
    assert (is_number_char c = true) as -> by number_char.
    split; [reflexivity |]. exists c, r. split; [reflexivity |].
    rewrite Hminus. apply orb_true_r.
  - intros H. destruct (unsigned_literal_chars _ H) as [Hs (c' & r' & Heq & Hd)].
    injection Heq as <- <-.
    split; [exact Hs |]. exists c, r. split; [reflexivity |].
    rewrite Hd. reflexivity.
Qed.

Section Printing.
Context {SC : Strconv}.

(** What follows a value in the encoder's output: never a byte that could
    continue a number. *)
Definition delimited (rest : string) : Prop :=
  match rest with
  | EmptyString => True
  | String c _ => is_number_char c = false
  end.

Lemma lex_number_run (s : string) :
  number_chars s = true ->
  forall acc rest : string,
    lex (LNumber acc) (s ++ rest) = lex (LNumber (acc ++ s)) rest.
Proof.
  induction s as [| c r IH]; intros H acc rest.
  - rewrite append_nil_r. reflexivity.
  - cbn [number_chars] in H. apply andb_prop in H. destruct H as [Hc Hr].
    cbn [append]. rewrite lex_number_step, Hc, (IH Hr), append_assoc.
    reflexivity.
Qed.

Lemma lex_number_end (acc rest : string) :
  delimited rest ->
  lex (LNumber acc) rest = emit_number acc (lex LStart rest).
Proof.
  destruct rest as [| c r]; [reflexivity |].
  cbn [delimited]. intros H. rewrite lex_number_step, H. reflexivity.
Qed.

Lemma lex_number_begin (c : ascii) (rest : string) :
  (is_digit c || (code c =? 45)%N) = true ->
  lex LStart (String c rest) = lex (LNumber (str c)) rest.
Proof.
  intros H. destruct c as [[] [] [] [] [] [] [] []];
    vm_compute in H; try discriminate H; reflexivity.
Qed.

Lemma lex_number (f : float64) (rest : string) :
  good_number f ->
  delimited rest ->
  lex LStart (FormatFloat f ++ rest) = cons_token (TNumber f) (lex LStart rest).
Proof.
  intros (_ & Hlit & Hparse) Hrest.
  destruct (number_literal_chars _ Hlit) as [Hchars (c & r & Heq & Hc)].
  rewrite Heq. cbn [append].
  rewrite (lex_number_begin _ _ Hc).
  rewrite Heq in Hchars. cbn [number_chars] in Hchars.
  apply andb_prop in Hchars. destruct Hchars as [_ Hr].
  rewrite (lex_number_run _ Hr), (lex_number_end _ _ Hrest).
  change (str c ++ r) with (String c r). rewrite <- Heq.
  unfold emit_number, number_token. rewrite Hlit, Hparse. reflexivity.
Qed.

(** *** The encoder's output, token by token *)

Definition prepend (l : list (token SC)) (x : option (list (token SC)))
  : option (list (token SC)) :=
  option_map (app l) x.

Lemma cons_token_prepend (t : token SC) (l : list (token SC))
    (x : option (list (token SC))) :
  cons_token t (prepend l x) = prepend (t :: l) x.
Proof. destruct x; reflexivity. Qed.

Lemma prepend_prepend (a b : list (token SC)) (x : option (list (token SC))) :
  prepend a (prepend b x) = prepend (a ++ b)%list x.
Proof. destruct x; cbn; [rewrite app_assoc |]; reflexivity. Qed.

Lemma cons_token_single (t : token SC) (x : option (list (token SC))) :
  cons_token t x = prepend [t] x.
Proof. destruct x; reflexivity. Qed.

Lemma lex_open_array (rest : string) :
  lex LStart ("[" ++ rest) = cons_token TLBrack (lex LStart rest).
Proof. reflexivity. Qed.

Lemma lex_close_array (rest : string) :
  lex LStart ("]" ++ rest) = cons_token TRBrack (lex LStart rest).
Proof. reflexivity. Qed.

Lemma lex_open_object (rest : string) :
  lex LStart ("{" ++ rest) = cons_token TLBrace (lex LStart rest).
Proof. reflexivity. Qed.

Lemma lex_close_object (rest : string) :
  lex LStart ("}" ++ rest) = cons_token TRBrace (lex LStart rest).
Proof. reflexivity. Qed.

Lemma lex_comma (rest : string) :
  lex LStart ("," ++ rest) = cons_token TComma (lex LStart rest).
Proof. reflexivity. Qed.

Lemma lex_colon (rest : string) :
  lex LStart (": " ++ rest) = cons_token TColon (lex LStart rest).
Proof. reflexivity. Qed.

Lemma lex_null (rest : string) :
  lex LStart ("null" ++ rest) = cons_token TNull (lex LStart rest).
Proof. reflexivity. Qed.

Lemma lex_true (rest : string) :
  lex LStart ("true" ++ rest) = cons_token TTrue (lex LStart rest).
Proof. reflexivity. Qed.

Lemma lex_false (rest : string) :
  lex LStart ("false" ++ rest) = cons_token TFalse (lex LStart rest).
Proof. reflexivity. Qed.

Lemma lex_indent (d : nat) (rest : string) :
  lex LStart (indent d ++ rest) = lex LStart rest.
Proof.
  unfold indent. cbn [append].
  change (lex LStart (String newline (repeat_string "  " d ++ rest)))
    with (lex LStart (repeat_string "  " d ++ rest)).
  induction d as [| d IH]; [reflexivity |].
  cbn [repeat_string]. rewrite append_assoc. exact IH.
Qed.

Definition print_elements (d : nat) :=
  fix elements (l : list (jvalue SC)) : string :=
    match l with
    | [] => EmptyString
    | y :: l' => "," ++ indent (S d) ++ print (S d) y ++ elements l'
    end.

Definition print_members (d : nat) :=
  fix members (l : list (string * jvalue SC)) : string :=
    match l with
    | [] => EmptyString
    | (k', y) :: l' =>
      "," ++ indent (S d) ++ quoted k' ++ ": " ++ print (S d) y ++ members l'
    end.

Lemma print_array (d : nat) (x : jvalue SC) (xs : list (jvalue SC)) :
  print d (JArray (x :: xs))
  = "[" ++ indent (S d) ++ print (S d) x ++ print_elements d xs
    ++ indent d ++ "]".
Proof. reflexivity. Qed.

Lemma print_object (d : nat) (k : string) (x : jvalue SC) (m : jmap SC) :
  print d (JObject ((k, x) :: m))
  = "{" ++ indent (S d) ++ quoted k ++ ": " ++ print (S d) x
    ++ print_members d m ++ indent d ++ "}".
Proof. reflexivity. Qed.

Lemma delimited_elements (d : nat) (xs : list (jvalue SC)) (rest : string) :
  delimited (print_elements d xs ++ indent d ++ rest).
Proof. destruct xs; reflexivity. Qed.

Lemma delimited_members (d : nat) (m : jmap SC) (rest : string) :
  delimited (print_members d m ++ indent d ++ rest).
Proof. destruct m as [| [k x] m]; reflexivity. Qed.

(** The scanner reads the text of a well-formed value as its tokens. *)
Lemma lex_print (v : jvalue SC) :
  forall (n d : nat) (rest : string),
    wf n v ->
    delimited rest ->
    lex LStart (print d v ++ rest) = prepend (tokens v) (lex LStart rest).
Proof.
  induction v as [| b | f | s | l IH | m IH] using jvalue_induction;
    intros n d rest Hwf Hrest.
  - cbn [print tokens]. rewrite lex_null. apply cons_token_single.
  - destruct b; cbn [print tokens];
      [rewrite lex_true | rewrite lex_false]; apply cons_token_single.
  - inversion Hwf as [| | n' f' Hf | | |]; subst.
    cbn [print tokens]. rewrite (lex_number _ _ Hf Hrest).
    apply cons_token_single.
  - inversion Hwf as [| | | n' s' Hs | |]; subst.
    cbn [print tokens]. rewrite (lex_quoted _ _ Hs).
    apply cons_token_single.
  - inversion Hwf as [| | | | n' l' _ Hall |]; subst.
    destruct l as [| x xs].
    { cbn [print tokens]. change ("[]" ++ rest) with ("[" ++ "]" ++ rest).
      rewrite lex_open_array, lex_close_array.
      destruct (lex LStart rest); reflexivity. }
    inversion IH as [| x' xs' IHx IHxs]; subst.
    inversion Hall as [| x' xs' Hx Hxs]; subst.
    assert (forall xs,
              Forall (fun v => forall n d rest, wf n v -> delimited rest ->
                        lex LStart (print d v ++ rest)
                        = prepend (tokens v) (lex LStart rest)) xs ->
              Forall (wf (S n)) xs ->
              forall tail,
                lex LStart (print_elements d xs ++ indent d ++ tail)
                = prepend (element_tokens tokens xs) (lex LStart tail)) as Htail.
    { clear. induction xs as [| y xs IHxs]; intros IH Hall tail.
      - cbn [print_elements element_tokens append]. rewrite lex_indent.
        destruct (lex LStart tail); reflexivity.
      - inversion IH as [| y' xs' IHy IHrest]; subst.
        inversion Hall as [| y' xs' Hy Hrest]; subst.
        cbn [print_elements element_tokens]. rewrite !append_assoc.
        rewrite lex_comma, lex_indent.
        rewrite (IHy _ (S d) _ Hy (delimited_elements d xs tail)).
        rewrite (IHxs IHrest Hrest).
        rewrite prepend_prepend, cons_token_prepend. reflexivity. }
    rewrite print_array. cbn [tokens]. rewrite !append_assoc.
    rewrite lex_open_array, lex_indent.
    rewrite (IHx _ (S d) _ Hx (delimited_elements d xs _)).
    rewrite (Htail xs IHxs Hxs), lex_close_array.
    rewrite (cons_token_single TRBrack), !prepend_prepend, cons_token_prepend.
    rewrite <- ?app_assoc. reflexivity.
  - inversion Hwf as [| | | | | n' m' _ Hsorted Hall]; subst.
    destruct m as [| [k x] m].
    { cbn [print tokens]. change ("{}" ++ rest) with ("{" ++ "}" ++ rest).
      rewrite lex_open_object, lex_close_object.
      destruct (lex LStart rest); reflexivity. }
    inversion IH as [| e m' IHx IHm]; subst. cbn [snd] in IHx.
    inversion Hall as [| e m' [Hk Hx] Hm]; subst. cbn [fst snd] in Hk, Hx.
    assert (forall m,
              Forall (fun kv => forall n d rest, wf n (snd kv) -> delimited rest ->
                        lex LStart (print d (snd kv) ++ rest)
                        = prepend (tokens (snd kv)) (lex LStart rest)) m ->
              Forall (fun kv => Utf8.valid (fst kv) = true /\ wf (S n) (snd kv)) m ->
              forall tail,
                lex LStart (print_members d m ++ indent d ++ tail)
                = prepend (member_tokens tokens m) (lex LStart tail)) as Htail.
    { clear. induction m as [| [k y] m IHm]; intros IH Hall tail.
      - cbn [print_members member_tokens append]. rewrite lex_indent.
        destruct (lex LStart tail); reflexivity.
      - inversion IH as [| e m' IHy IHrest]; subst. cbn [snd] in IHy.
        inversion Hall as [| e m' [Hk Hy] Hrest]; subst. cbn [fst snd] in Hk, Hy.
        cbn [print_members member_tokens]. rewrite !append_assoc.
        rewrite lex_comma, lex_indent, (lex_quoted _ _ Hk), lex_colon.
        rewrite (IHy _ (S d) _ Hy (delimited_members d m tail)).
        rewrite (IHm IHrest Hrest).
        rewrite prepend_prepend, !cons_token_prepend. reflexivity. }
    rewrite print_object. cbn [tokens]. rewrite !append_assoc.
    rewrite lex_open_object, lex_indent, (lex_quoted _ _ Hk), lex_colon.
    rewrite (IHx _ (S d) _ Hx (delimited_members d m _)).
    rewrite (Htail m IHm Hm), lex_close_object.
    rewrite (cons_token_single TRBrace), !prepend_prepend, !cons_token_prepend.
    rewrite <- ?app_assoc. reflexivity.
Qed.

(** *** Decoding what was encoded *)

Lemma decode_print (v : jvalue SC) : wf 0 v -> decode (print 0 v) = Some v.
Proof.
  intros Hwf. unfold decode.
  rewrite <- (append_nil_r (print 0 v)).
  rewrite (lex_print v 0 0 EmptyString Hwf I).
  cbn [lex prepend option_map].
  rewrite (value_tokens v [] [] Hwf). reflexivity.
Qed.

Hypothesis laws : lawful SC.

Lemma decode_is_wf (data : string) (v : jvalue SC) :
  decode data = Some v -> wf 0 v.
Proof.
  unfold decode. destruct (lex LStart data) as [ts |] eqn:Hlex; [| discriminate].
  intros Hvalue.
  pose proof (lex_good laws _ data LStart ts (Nat.le_refl _) I Hlex) as Hgood.
  destruct (decode_wf _ ts (Nat.le_refl _) Hgood) as [Hwf _].
  exact (Hwf [] v I Hvalue).
Qed.

(** Whatever [json.Unmarshal] stored in the map, [json.MarshalIndent] encodes
    without error, and decoding its output stores the same map. *)
Lemma Unmarshal_MarshalIndent (data : string) (m : option (jmap SC)) :
  Unmarshal data = Some m ->
  exists text, MarshalIndent m = Some text /\ Unmarshal text = Some m.
Proof.
  unfold Unmarshal.
  destruct (decode data) as [v |] eqn:Hdecode; [| discriminate].
  pose proof (decode_is_wf _ _ Hdecode) as Hwf.
  destruct v as [| b | f | s | l | m']; try discriminate.
  - intros [= <-]. exists "null". split; reflexivity.
  - intros [= <-]. exists (print 0 (JObject m')). split.
    + unfold MarshalIndent. rewrite (wf_supported _ _ Hwf). reflexivity.
    + rewrite (decode_print _ Hwf). reflexivity.
Qed.

End Printing.
End PrintFacts.

(** ** The bytes of an encoded value *)

Module TextFacts.
Import Bytes BytesFacts Utf8 Utf8Facts Utf8Encode Json JsonFacts PrintFacts.

(** Every byte of [s] passes [p]. *)
Fixpoint every (p : ascii -> bool) (s : string) : bool :=
  match s with
  | EmptyString => true
  | String c r => p c && every p r
  end.

Definition is_ascii (c : ascii) : bool := (code c <? 128)%N.

(** The bytes [<], [>] and [&], which the encoder never writes as they are. *)
Definition markup (c : ascii) : bool :=
  match code c with
  | 38%N | 60%N | 62%N => true
  | _ => false
  end.

(** Neither markup nor a control byte other than the line break. *)
Definition inert (c : ascii) : bool :=
  negb (markup c) && ((32 <=? code c)%N || (code c =? 10)%N).

(** The bytes the encoder writes of its own: brackets, separators,
    indentation and the three literals. *)
Definition layout (c : ascii) : bool :=
  existsb (Ascii.eqb c) (list_ascii_of_string "[]{},: nulltruefalse")
  || Ascii.eqb c newline.

Lemma every_append (p : ascii -> bool) (a b : string) :
  every p a = true -> every p b = true -> every p (a ++ b) = true.
Proof.
  intros Ha Hb. induction a as [| c a IH]; [exact Hb |].
  cbn in Ha |- *. apply andb_prop in Ha. destruct Ha as [Hc Ha].
  rewrite Hc. exact (IH Ha).
Qed.

Lemma every_impl (p q : ascii -> bool) (s : string) :
  (forall c, p c = true -> q c = true) -> every p s = true -> every q s = true.
Proof.
  intros Hpq. induction s as [| c s IH]; [reflexivity |].
  cbn. intros H. apply andb_prop in H. destruct H as [Hc Hs].
  rewrite (Hpq c Hc). exact (IH Hs).
Qed.

Ltac each_byte c := destruct c as [[] [] [] [] [] [] [] []].

Lemma ascii_valid (s : string) : every is_ascii s = true -> valid s = true.
Proof.
  induction s as [| c s IH]; [reflexivity |].
  cbn [every]. intros H. apply andb_prop in H. destruct H as [Hc Hs].
  rewrite (starts_valid _ _ _ (starts_one c s Hc)). exact (IH Hs).
Qed.

Lemma layout_ascii (c : ascii) : layout c = true -> is_ascii c = true.
Proof. each_byte c; intros H; try reflexivity; discriminate H. Qed.

Lemma layout_inert (c : ascii) : layout c = true -> inert c = true.
Proof. each_byte c; intros H; try reflexivity; discriminate H. Qed.

Lemma number_char_ascii (c : ascii) : is_number_char c = true -> is_ascii c = true.
Proof. each_byte c; intros H; try reflexivity; discriminate H. Qed.

Lemma number_char_inert (c : ascii) : is_number_char c = true -> inert c = true.
Proof. each_byte c; intros H; try reflexivity; discriminate H. Qed.

Lemma html_safe_inert (c : ascii) : html_safe c = true -> inert c = true.
Proof. each_byte c; intros H; try reflexivity; discriminate H. Qed.

Lemma high_inert (c : ascii) : (code c <? 128)%N = false -> inert c = true.
Proof. each_byte c; intros H; try reflexivity; discriminate H. Qed.

Lemma escape_byte_ascii (c : ascii) : every is_ascii (escape_byte c) = true.
Proof. each_byte c; reflexivity. Qed.

Lemma escape_byte_inert (c : ascii) :
  (code c <? 128)%N = true -> html_safe c = false -> every inert (escape_byte c) = true.
Proof. each_byte c; intros H H'; try reflexivity; discriminate. Qed.

Lemma number_chars_every (s : string) :
  number_chars s = true -> every is_number_char s = true.
Proof.
  induction s as [| c s IH]; [reflexivity |]. cbn.
  intros H. apply andb_prop in H. destruct H as [Hc Hs].
  rewrite Hc. exact (IH Hs).
Qed.

(** *** Escaped strings *)

(** The last digit of the escape written for U+2028 and U+2029. *)
Lemma separator_last (c0 c1 c2 : ascii) :
  line_separator c0 c1 c2 = true ->
  hex_digit (code c2 mod 16) = if (code c2 =? 168)%N then "8"%char else "9"%char.
Proof.
  unfold line_separator. intros H. apply andb_prop in H. destruct H as [_ H].
  apply orb_prop in H. destruct H as [H | H]; apply N.eqb_eq in H; rewrite H;
    reflexivity.
Qed.

Lemma valid_escape (s : string) : valid s = true -> valid (escape s) = true.
Proof.
  revert s. apply (valid_ind (fun s => valid (escape s) = true)); [reflexivity |].
  intros n s r Hstarts _ IH.
  destruct Hstarts as [c r H | c0 c1 r H | c0 c1 c2 r H | c0 c1 c2 c3 r H].
  - cbn [escape]. rewrite H. destruct (html_safe c).
    + rewrite (starts_valid _ _ _ (starts_one c _ H)). exact IH.
    + apply valid_append; [| exact IH].
      apply ascii_valid, escape_byte_ascii.
  - cbn [escape]. rewrite (two_high _ _ H), (seq_len_two _ _ _ H).
    rewrite (starts_valid _ _ _ (starts_two c0 c1 _ H)). exact IH.
  - cbn [escape]. rewrite (proj1 (three_high _ _ _ H)), (seq_len_three _ _ _ _ H).
    destruct (line_separator c0 c1 c2) eqn:Hsep.
    + rewrite (separator_last _ _ _ Hsep).
      destruct (code c2 =? 168)%N; exact IH.
    + rewrite (starts_valid _ _ _ (starts_three c0 c1 c2 _ H)). exact IH.
  - cbn [escape]. rewrite (proj1 (four_high _ _ _ _ H)), (seq_len_four _ _ _ _ _ H).
    rewrite (starts_valid _ _ _ (starts_four c0 c1 c2 c3 _ H)). exact IH.
Qed.

Lemma two_bytes_high (c0 c1 : ascii) :
  two c0 c1 = true -> (code c0 <? 128)%N = false /\ (code c1 <? 128)%N = false.
Proof.
  unfold two, cont, between. intros H. reflect_bool.
  split; apply N.ltb_ge; lia.
Qed.

Lemma three_bytes_high (c0 c1 c2 : ascii) :
  three c0 c1 c2 = true ->
  (code c0 <? 128)%N = false /\ (code c1 <? 128)%N = false
  /\ (code c2 <? 128)%N = false.
Proof.
  unfold three, cont, between. intros H. reflect_bool.
  destruct (code c0 =? 224)%N; [| destruct (code c0 =? 237)%N];
    reflect_bool; repeat split; apply N.ltb_ge; lia.
Qed.

Lemma four_bytes_high (c0 c1 c2 c3 : ascii) :
  four c0 c1 c2 c3 = true ->
  (code c0 <? 128)%N = false /\ (code c1 <? 128)%N = false
  /\ (code c2 <? 128)%N = false /\ (code c3 <? 128)%N = false.
Proof.
  unfold four, cont, between. intros H. reflect_bool.
  destruct (code c0 =? 240)%N; [| destruct (code c0 =? 244)%N];
    reflect_bool; repeat split; apply N.ltb_ge; lia.
Qed.

Lemma inert_escape (s : string) : valid s = true -> every inert (escape s) = true.
Proof.
  revert s. apply (valid_ind (fun s => every inert (escape s) = true)); [reflexivity |].
  intros n s r Hstarts _ IH.
  destruct Hstarts as [c r H | c0 c1 r H | c0 c1 c2 r H | c0 c1 c2 c3 r H].
  - cbn [escape]. rewrite H. destruct (html_safe c) eqn:Hsafe.
    + cbn [every]. rewrite (html_safe_inert _ Hsafe). exact IH.
    + apply every_append; [| exact IH]. apply escape_byte_inert; assumption.
  - cbn [escape]. rewrite (two_high _ _ H), (seq_len_two _ _ _ H).
    cbn [every]. destruct (two_bytes_high _ _ H) as (H0 & H1).
    rewrite (high_inert _ H0), (high_inert _ H1). exact IH.
  - cbn [escape]. rewrite (proj1 (three_high _ _ _ H)), (seq_len_three _ _ _ _ H).
    destruct (line_separator c0 c1 c2) eqn:Hsep.
    + rewrite (separator_last _ _ _ Hsep).
      destruct (code c2 =? 168)%N; exact IH.
    + cbn [every]. destruct (three_bytes_high _ _ _ H) as (H0 & H1 & H2).
      rewrite (high_inert _ H0), (high_inert _ H1), (high_inert _ H2). exact IH.
  - cbn [escape]. rewrite (proj1 (four_high _ _ _ _ H)), (seq_len_four _ _ _ _ _ H).
    cbn [every]. destruct (four_bytes_high _ _ _ _ H) as (H0 & H1 & H2 & H3).
    rewrite (high_inert _ H0), (high_inert _ H1), (high_inert _ H2), (high_inert _ H3).
    exact IH.
Qed.

Lemma valid_quoted (s : string) : valid s = true -> valid (quoted s) = true.
Proof.
  intros H. unfold quoted.
  rewrite (starts_valid _ _ _ (starts_one quote _ eq_refl)).
  apply valid_append; [apply valid_escape; exact H | reflexivity].
Qed.

Lemma inert_quoted (s : string) : valid s = true -> every inert (quoted s) = true.
Proof.
  intros H. unfold quoted. cbn [every].
  apply every_append; [apply inert_escape; exact H | reflexivity].
Qed.

(** *** Encoded values *)

Section Printed.
Context {SC : Strconv}.

Lemma layout_indent (d : nat) : every layout (indent d) = true.
Proof.
  unfold indent. cbn [every].
  induction d as [| d IH]; [reflexivity | exact IH].
Qed.

(** A property of texts that holds of the encoder's own bytes, of quoted
    strings and of numbers, and that concatenation keeps, holds of every
    encoded value. *)
Variable P : string -> Prop.
Hypothesis P_append : forall a b, P a -> P b -> P (a ++ b).
Hypothesis P_layout : forall s, every layout s = true -> P s.
Hypothesis P_quoted : forall s, valid s = true -> P (quoted s).
Hypothesis P_number : forall f, good_number f -> P (FormatFloat f).

Lemma print_closed (v : jvalue SC) : forall n d, wf n v -> P (print d v).
Proof.
  induction v as [| b | f | s | l IH | m IH] using jvalue_induction;
    intros n d Hwf.
  - apply P_layout. reflexivity.
  - destruct b; apply P_layout; reflexivity.
  - inversion Hwf as [| | n' f' Hf | | |]; subst. apply P_number. exact Hf.
  - inversion Hwf as [| | | n' s' Hs | |]; subst. apply P_quoted. exact Hs.
  - inversion Hwf as [| | | | n' l' _ Hall |]; subst.
    destruct l as [| x xs]; [apply P_layout; reflexivity |].
    inversion IH as [| x' xs' IHx IHxs]; subst.
    inversion Hall as [| x' xs' Hx Hxs]; subst.
    assert (P (print_elements d xs)) as Htail.
    { clear IHx Hx Hwf Hall IH.
      induction xs as [| y xs IHrest]; [apply P_layout; reflexivity |].
      inversion IHxs as [| y' xs' IHy IHxs']; subst.
      inversion Hxs as [| y' xs' Hy Hxs']; subst.
      cbn [print_elements].
      repeat apply P_append;
        [ apply P_layout; reflexivity
        | apply P_layout, layout_indent
        | exact (IHy _ _ Hy)
        | exact (IHrest IHxs' Hxs') ]. }
    rewrite print_array.
    repeat apply P_append;
      [ apply P_layout; reflexivity
      | apply P_layout, layout_indent
      | exact (IHx _ _ Hx)
      | exact Htail
      | apply P_layout, layout_indent
      | apply P_layout; reflexivity ].
  - inversion Hwf as [| | | | | n' m' _ Hsorted Hall]; subst.
    destruct m as [| [k x] m]; [apply P_layout; reflexivity |].
    inversion IH as [| e m' IHx IHm]; subst. cbn [snd] in IHx.
    inversion Hall as [| e m' [Hk Hx] Hm]; subst. cbn [fst snd] in Hk, Hx.
    assert (P (print_members d m)) as Htail.
    { clear IHx Hx Hk Hwf Hall IH Hsorted.
      induction m as [| [k' y] m IHrest]; [apply P_layout; reflexivity |].
      inversion IHm as [| e m' IHy IHm']; subst. cbn [snd] in IHy.
      inversion Hm as [| e m' [Hk' Hy] Hm']; subst. cbn [fst snd] in Hk', Hy.
      cbn [print_members].
      repeat apply P_append;
        [ apply P_layout; reflexivity
        | apply P_layout, layout_indent
        | apply P_quoted; exact Hk'
        | apply P_layout; reflexivity
        | exact (IHy _ _ Hy)
        | exact (IHrest IHm' Hm') ]. }
    rewrite print_object.
    repeat apply P_append;
      [ apply P_layout; reflexivity
      | apply P_layout, layout_indent
      | apply P_quoted; exact Hk
      | apply P_layout; reflexivity
      | exact (IHx _ _ Hx)
      | exact Htail
      | apply P_layout, layout_indent
      | apply P_layout; reflexivity ].
Qed.

End Printed.

Section Encoded.
Context {SC : Strconv}.

Lemma number_bytes (f : float64) :
  good_number f -> every is_number_char (FormatFloat f) = true.
Proof.
  intros (_ & Hlit & _).
  apply number_chars_every. exact (proj1 (number_literal_chars _ Hlit)).
Qed.

(** The text of a decoded value is valid UTF-8 ... *)
Lemma valid_print (v : jvalue SC) (n d : nat) :
  wf n v -> valid (print d v) = true.
Proof.
  apply (print_closed (fun s => valid s = true)).
  - apply valid_append.
  - intros s H. apply ascii_valid. exact (every_impl _ _ s layout_ascii H).
  - apply valid_quoted.
  - intros f Hf. apply ascii_valid.
    exact (every_impl _ _ _ number_char_ascii (number_bytes f Hf)).
Qed.

(** ... and holds no markup byte and no control byte but the line break. *)
Lemma inert_print (v : jvalue SC) (n d : nat) :
  wf n v -> every inert (print d v) = true.
Proof.
  apply (print_closed (fun s => every inert s = true)).
  - apply every_append.
  - intros s H. exact (every_impl _ _ s layout_inert H).
  - apply inert_quoted.
  - intros f Hf. exact (every_impl _ _ _ number_char_inert (number_bytes f Hf)).
Qed.

Hypothesis laws : lawful SC.

(** Whatever [MarshalIndent] writes for a map that [Unmarshal] stored. *)
Lemma MarshalIndent_text (data text : string) (m : option (jmap SC)) :
  Unmarshal data = Some m ->
  MarshalIndent m = Some text ->
  valid text = true /\ every inert text = true.
Proof.
  unfold Unmarshal.
  destruct (decode data) as [v |] eqn:Hdecode; [| discriminate].
  pose proof (decode_is_wf laws _ _ Hdecode) as Hwf.
  destruct v as [| b | f | s | l | m']; try discriminate.
  - intros [= <-] [= <-]. split; reflexivity.
  - intros [= <-]. unfold MarshalIndent.
    destruct (supported (JObject m')); [| discriminate].
    intros Htext.
    assert (text = print 0 (JObject m')) as -> by congruence.
    split; [exact (valid_print _ _ _ Hwf) | exact (inert_print _ _ _ Hwf)].
Qed.

End Encoded.

End TextFacts.

(** ** Properties of the orchestration *)

Module TrustyFacts.
Import Bytes Trusty.

Section Runs.
Context {SC : Json.Strconv}.
Variable w : World.
Variable userPrompt : list string.

(** The first model turn is fixed by the command line alone. *)
Definition first_prompt : string :=
  promptBase ++ " " ++ String.concat " " userPrompt.

Definition first_call : ChatCall :=
  {| chat_ctx := {| created := 0; deadline := 30 * time_Second |};
     chat_start := 0;
     chat_messages := [user_message first_prompt];
     chat_tools := Some [trustyTool] |}.

Definition first_return : ChatReturn := chat w 0 first_call.

Definition first_event : event := EvChat first_call (chat_took first_return).

Lemma run_first_turn :
  run w userPrompt =
  match chat_result first_return with
  | inr err =>
    (Exit (if is_DeadlineExceeded err then TimeoutError else BackendError err),
     {| now := chat_took first_return; trace := [first_event]; stdout := EmptyString;
        stderr := [fatal_message
                     (if is_DeadlineExceeded err then TimeoutError else BackendError err)] |})
  | inl ollamaResponse =>
    let messages := [user_message first_prompt; responseAsMap w (Message ollamaResponse)] in
    match ToolCalls (Message ollamaResponse) with
    | [] =>
      (Return DIRECT_ANSWER,
       {| now := chat_took first_return; trace := [first_event];
          stdout := "The model did not use tools. It generated the response on its own."
                    ++ str newline ++ "Content: " ++ " "
                    ++ Content (Message ollamaResponse) ++ str newline;
          stderr := [] |})
    | call0 :: _ =>
      if String.eqb (Name (Function call0)) "trustyReport" then
        match chatTrustyReport w
                {| created := chat_took first_return;
                   deadline := chat_took first_return + 30 * time_Second |}
                messages (Function call0)
                {| now := chat_took first_return; trace := [first_event];
                   stdout := EmptyString;
                   stderr := ["Handling trustyReport function call"] |} with
        | (Return (ollamaTrustyMessage, None), st) =>
          (log_Println "Handling trustyReport response" ;;
           ctx <- WithTimeout (30 * time_Second) ;;
           r <- Chat w ctx [user_message (Content ollamaTrustyMessage);
                            user_message summaryRequest] None ;;
           match r with
           | inr err => chat_failed err
           | inl ollamaResponse =>
             print ("Response:" ++ str newline
                    ++ Content (Message ollamaResponse) ++ str newline) ;;
             ret DONE
           end) st
        | (Return (_, Some err), st) => log_Fatal (BackendError err) st
        | (Exit f, st) => (Exit f, st)
        end
      else
        (Exit (UnexpectedToolError (Name (Function call0))),
         {| now := chat_took first_return; trace := [first_event]; stdout := EmptyString;
            stderr := [fatal_message (UnexpectedToolError (Name (Function call0)))] |})
    end
  end.
Proof.
  unfold run, main, first_event, first_return, first_call, first_prompt.
  cbv [bind WithTimeout clock ret Chat wait emit initial now trace stdout stderr
       chats filter is_chat length app].
  rewrite N.add_0_l.
  destruct (chat_result _) as [resp | err].
  - destruct (ToolCalls (Message resp)) as [| call0 rest].
    + reflexivity.
    + destruct (String.eqb _ _); [| reflexivity].
      cbv [log_Println now trace stdout stderr app].
      destruct (chatTrustyReport _ _ _ _ _) as [[[m [e |]] | f] st]; reflexivity.
  - unfold chat_failed. destruct (is_DeadlineExceeded err); reflexivity.
Qed.

(** *** The lookup *)

(** What [trustyReport] makes of a body it has read. *)
Definition report_of_body (body : string) : string + error :=
  match Json.Unmarshal body with
  | None => inr JsonError
  | Some prettyJSON =>
    match Json.MarshalIndent prettyJSON with
    | None => inr JsonError
    | Some jsonString => inl jsonString
    end
  end.

(** The error with which the lookup fails before any body is decoded:
    building the request, sending it, or reading the body. *)
Definition transport_error (url : string) : option error :=
  match NewRequest w url with
  | Some err => Some err
  | None =>
    match do_result (Do w url) with
    | inr err => Some err
    | inl resp =>
      match Body resp with
      | inr err => Some err
      | inl _ => None
      end
    end
  end.

Definition lookup_result (packageName ecosystem : string) : string + error :=
  let url := report_url packageName ecosystem in
  match NewRequest w url with
  | Some err => inr err
  | None =>
    match do_result (Do w url) with
    | inr err => inr err
    | inl resp =>
      match Body resp with
      | inr err => inr err
      | inl body => report_of_body body
      end
    end
  end.

Definition lookup_events (packageName ecosystem : string) : list event :=
  let url := report_url packageName ecosystem in
  EvLookup packageName ecosystem ::
  match NewRequest w url with
  | Some _ => []
  | None => [EvHttp url]
  end.

Definition lookup_took (packageName ecosystem : string) : N :=
  let url := report_url packageName ecosystem in
  match NewRequest w url with
  | Some _ => 0
  | None => do_took (Do w url)
  end.

Lemma trustyReport_run (packageName ecosystem : string) (st : State) :
  trustyReport w packageName ecosystem st =
  (Return (lookup_result packageName ecosystem),
   {| now := now st + lookup_took packageName ecosystem;
      trace := (trace st ++ lookup_events packageName ecosystem)%list;
      stdout := stdout st; stderr := stderr st |}).
Proof.
  unfold trustyReport, lookup_result, lookup_events, lookup_took, report_of_body.
  cbv [bind emit wait ret now trace stdout stderr].
  destruct (NewRequest w _) as [err |].
  - rewrite N.add_0_r. reflexivity.
  - rewrite <- app_assoc. cbn [app].
    destruct (do_result _) as [resp | err]; [| reflexivity].
    destruct (Body resp) as [body | err]; [| reflexivity].
    destruct (Json.Unmarshal body) as [m |]; [| reflexivity].
    destruct (Json.MarshalIndent m); reflexivity.
Qed.

Lemma chats_lookup_events (packageName ecosystem : string) :
  chats (lookup_events packageName ecosystem) = [].
Proof.
  unfold lookup_events. destruct (NewRequest w _); reflexivity.
Qed.

Lemma chats_app (a b : list event) : chats (a ++ b) = (chats a ++ chats b)%list.
Proof. apply filter_app. Qed.

(** *** The turns after a tool call *)

Definition tool_message (report : string) : map_string_any :=
  map_literal [("role", Json.JString "tool"); ("content", Json.JString report)].

Definition timeout_or_backend (err : error) : fatal :=
  if is_DeadlineExceeded err then TimeoutError else BackendError err.

Section ToolPath.
Variable resp : OllamaResponse.
Variables packageName ecoSystem : string.

Let t1 : N := chat_took first_return.

Definition second_call (report : string) : ChatCall :=
  {| chat_ctx := {| created := t1; deadline := t1 + 30 * time_Second |};
     chat_start := t1 + lookup_took packageName ecoSystem;
     chat_messages := [user_message first_prompt; responseAsMap w (Message resp);
                       tool_message report];
     chat_tools := None |}.

Definition second_return (report : string) : ChatReturn :=
  chat w 1 (second_call report).

Definition second_time (report : string) : N :=
  t1 + lookup_took packageName ecoSystem + chat_took (second_return report).

Definition second_event (report : string) : event :=
  EvChat (second_call report) (second_time report).

Definition third_call (report content : string) : ChatCall :=
  {| chat_ctx := {| created := second_time report;
                    deadline := second_time report + 30 * time_Second |};
     chat_start := second_time report;
     chat_messages := [user_message content; user_message summaryRequest];
     chat_tools := None |}.

Definition third_return (report content : string) : ChatReturn :=
  chat w 2 (third_call report content).

Definition third_event (report content : string) : event :=
  EvChat (third_call report content)
         (second_time report + chat_took (third_return report content)).

(** The whole run once the first reply asks for [trustyReport] with two
    string arguments. *)
Definition tool_run : result exit_point * State :=
  let looked := (first_event :: lookup_events packageName ecoSystem)%list in
  match lookup_result packageName ecoSystem with
  | inr err =>
    (Exit (LookupError err),
     {| now := t1 + lookup_took packageName ecoSystem;
        trace := looked; stdout := EmptyString;
        stderr := ["Handling trustyReport function call";
                   fatal_message (LookupError err)] |})
  | inl report =>
    match chat_result (second_return report) with
    | inr err =>
      (Exit (timeout_or_backend err),
       {| now := second_time report;
          trace := (looked ++ [second_event report])%list; stdout := EmptyString;
          stderr := ["Handling trustyReport function call";
                     fatal_message (timeout_or_backend err)] |})
    | inl resp2 =>
      let content := Content (Message resp2) in
      let t3 := (second_time report + chat_took (third_return report content))%N in
      let turns := (looked ++ [second_event report; third_event report content])%list in
      match chat_result (third_return report content) with
      | inr err =>
        (Exit (timeout_or_backend err),
         {| now := t3; trace := turns; stdout := EmptyString;
            stderr := ["Handling trustyReport function call";
                       "Handling trustyReport response";
                       fatal_message (timeout_or_backend err)] |})
      | inl resp3 =>
        (Return DONE,
         {| now := t3; trace := turns;
            stdout := "Response:" ++ str newline
                      ++ Content (Message resp3) ++ str newline;
            stderr := ["Handling trustyReport function call";
                       "Handling trustyReport response"] |})
      end
    end
  end.

Lemma turns_after_lookup :
  length (chats (first_event :: lookup_events packageName ecoSystem)) = 1%nat.
Proof.
  unfold lookup_events. destruct (NewRequest w _); reflexivity.
Qed.

Lemma turns_after_second (report : string) :
  length (chats ((first_event :: lookup_events packageName ecoSystem)
                 ++ [second_event report])) = 2%nat.
Proof.
  unfold lookup_events. destruct (NewRequest w _); reflexivity.
Qed.

Lemma run_tool_path (call0 : OllamaToolCall) (rest : list OllamaToolCall) :
  chat_result first_return = inl resp ->
  ToolCalls (Message resp) = call0 :: rest ->
  Name (Function call0) = "trustyReport" ->
  as_string (index (Arguments (Function call0)) "package_name") = Some packageName ->
  as_string (index (Arguments (Function call0)) "ecosystem") = Some ecoSystem ->
  run w userPrompt = tool_run.
Proof.
  intros Hfirst Hcalls Hname Hpkg Heco.
  rewrite run_first_turn, Hfirst, Hcalls, Hname.
  cbn [String.eqb Ascii.eqb Bool.eqb]. cbv iota.
  unfold chatTrustyReport. rewrite Hpkg, Heco.
  unfold bind at 1. rewrite trustyReport_run.
  cbn [now trace stdout stderr].
  change ([first_event] ++ lookup_events packageName ecoSystem)%list
    with (first_event :: lookup_events packageName ecoSystem).
  unfold tool_run.
  destruct (lookup_result packageName ecoSystem) as [report | err]; [| reflexivity].
  unfold bind at 1.
  unfold Chat at 1.
  cbv [bind wait clock emit ret now trace stdout stderr].
  rewrite turns_after_lookup.
  fold (tool_message report). fold t1.
  change ([user_message first_prompt; responseAsMap w (Message resp)]
          ++ [tool_message report])%list
    with [user_message first_prompt; responseAsMap w (Message resp);
          tool_message report].
  fold (second_call report).
  fold (second_return report). fold (second_time report).
  fold (second_event report).
  unfold chat_failed, timeout_or_backend.
  destruct (chat_result (second_return report)) as [resp2 | err].
  - cbv [log_Println WithTimeout bind clock ret Chat wait emit
         now trace stdout stderr].
    rewrite turns_after_second.
    fold (third_call report (Content (Message resp2))).
    fold (third_return report (Content (Message resp2))).
    fold (third_event report (Content (Message resp2))).
    rewrite <- !app_assoc. cbn [app].
    destruct (chat_result (third_return report (Content (Message resp2)))) as [resp3 | err].
    + reflexivity.
    + destruct (is_DeadlineExceeded err); reflexivity.
  - destruct (is_DeadlineExceeded err); reflexivity.
Qed.

End ToolPath.

(** *** Failures before the lookup *)

Lemma run_unexpected_tool (resp : OllamaResponse) (call0 : OllamaToolCall)
    (rest : list OllamaToolCall) :
  chat_result first_return = inl resp ->
  ToolCalls (Message resp) = call0 :: rest ->
  Name (Function call0) <> "trustyReport" ->
  run w userPrompt =
  (Exit (UnexpectedToolError (Name (Function call0))),
   {| now := chat_took first_return; trace := [first_event]; stdout := EmptyString;
      stderr := [fatal_message (UnexpectedToolError (Name (Function call0)))] |}).
Proof.
  intros Hfirst Hcalls Hname.
  rewrite run_first_turn, Hfirst, Hcalls.
  apply String.eqb_neq in Hname. rewrite Hname. reflexivity.
Qed.

(** The argument the invoker misses, if it misses one: it asks for
    "package_name" first. *)
Definition missing_argument (call : OllamaFunctionCall) : option required :=
  match as_string (index (Arguments call) "package_name") with
  | None => Some package_name
  | Some _ =>
    match as_string (index (Arguments call) "ecosystem") with
    | None => Some ecosystem
    | Some _ => None
    end
  end.

Lemma run_missing_argument (resp : OllamaResponse) (call0 : OllamaToolCall)
    (rest : list OllamaToolCall) (arg : required) :
  chat_result first_return = inl resp ->
  ToolCalls (Message resp) = call0 :: rest ->
  Name (Function call0) = "trustyReport" ->
  missing_argument (Function call0) = Some arg ->
  run w userPrompt =
  (Exit (ArgumentError arg),
   {| now := chat_took first_return; trace := [first_event]; stdout := EmptyString;
      stderr := ["Handling trustyReport function call";
                 fatal_message (ArgumentError arg)] |}).
Proof.
  intros Hfirst Hcalls Hname Hmiss.
  rewrite run_first_turn, Hfirst, Hcalls, Hname.
  cbn [String.eqb Ascii.eqb Bool.eqb]. cbv iota.
  unfold chatTrustyReport. unfold missing_argument in Hmiss.
  destruct (as_string (index (Arguments (Function call0)) "package_name")).
  - destruct (as_string (index (Arguments (Function call0)) "ecosystem")).
    + discriminate.
    + injection Hmiss as <-. reflexivity.
  - injection Hmiss as <-. reflexivity.
Qed.

Lemma missing_argument_none (call : OllamaFunctionCall) :
  missing_argument call = None ->
  exists packageName ecoSystem,
    as_string (index (Arguments call) "package_name") = Some packageName
    /\ as_string (index (Arguments call) "ecosystem") = Some ecoSystem.
Proof.
  unfold missing_argument.
  destruct (as_string (index (Arguments call) "package_name")) as [p |]; [| discriminate].
  destruct (as_string (index (Arguments call) "ecosystem")) as [e |]; [| discriminate].
  intros _. exists p, e. split; reflexivity.
Qed.

(** Every run takes one of five courses. *)
Inductive course : result exit_point * State -> Prop :=
| first_turn_failed (err : error) :
    chat_result first_return = inr err ->
    course
      (Exit (timeout_or_backend err),
       {| now := chat_took first_return; trace := [first_event];
          stdout := EmptyString;
          stderr := [fatal_message (timeout_or_backend err)] |})
| answered_directly (resp : OllamaResponse) :
    chat_result first_return = inl resp ->
    ToolCalls (Message resp) = [] ->
    course
      (Return DIRECT_ANSWER,
       {| now := chat_took first_return; trace := [first_event];
          stdout := "The model did not use tools. It generated the response on its own."
                    ++ str newline ++ "Content: " ++ " "
                    ++ Content (Message resp) ++ str newline;
          stderr := [] |})
| unexpected_tool (resp : OllamaResponse) (call0 : OllamaToolCall)
    (rest : list OllamaToolCall) :
    chat_result first_return = inl resp ->
    ToolCalls (Message resp) = call0 :: rest ->
    Name (Function call0) <> "trustyReport" ->
    course
      (Exit (UnexpectedToolError (Name (Function call0))),
       {| now := chat_took first_return; trace := [first_event];
          stdout := EmptyString;
          stderr := [fatal_message (UnexpectedToolError (Name (Function call0)))] |})
| argument_missing (resp : OllamaResponse) (call0 : OllamaToolCall)
    (rest : list OllamaToolCall) (arg : required) :
    chat_result first_return = inl resp ->
    ToolCalls (Message resp) = call0 :: rest ->
    Name (Function call0) = "trustyReport" ->
    missing_argument (Function call0) = Some arg ->
    course
      (Exit (ArgumentError arg),
       {| now := chat_took first_return; trace := [first_event];
          stdout := EmptyString;
          stderr := ["Handling trustyReport function call";
                     fatal_message (ArgumentError arg)] |})
| tool_called (resp : OllamaResponse) (call0 : OllamaToolCall)
    (rest : list OllamaToolCall) (packageName ecoSystem : string) :
    chat_result first_return = inl resp ->
    ToolCalls (Message resp) = call0 :: rest ->
    Name (Function call0) = "trustyReport" ->
    as_string (index (Arguments (Function call0)) "package_name") = Some packageName ->
    as_string (index (Arguments (Function call0)) "ecosystem") = Some ecoSystem ->
    course (tool_run resp packageName ecoSystem).

Lemma run_course : course (run w userPrompt).
Proof.
  destruct (chat_result first_return) as [resp | err] eqn:Hfirst.
  - destruct (ToolCalls (Message resp)) as [| call0 rest] eqn:Hcalls.
    + rewrite run_first_turn, Hfirst, Hcalls. cbv zeta.
      apply answered_directly; assumption.
    + destruct (String.eqb_spec (Name (Function call0)) "trustyReport") as [Hname | Hname].
      * destruct (missing_argument (Function call0)) as [arg |] eqn:Hmiss.
        -- rewrite (run_missing_argument resp call0 rest arg) by assumption.
           eapply argument_missing; eassumption.
        -- destruct (missing_argument_none _ Hmiss) as (p & e & Hp & He).
           rewrite (run_tool_path resp p e call0 rest) by assumption.
           eapply tool_called; eassumption.
      * rewrite (run_unexpected_tool resp call0 rest) by assumption.
        eapply unexpected_tool; eassumption.
  - rewrite run_first_turn, Hfirst.
    apply first_turn_failed. assumption.
Qed.

(** *** What the trace says *)

(** The message sequences handed to the model, turn by turn. *)
Fixpoint contexts (tr : list event) : list (list map_string_any) :=
  match tr with
  | [] => []
  | EvChat call _ :: tr' => chat_messages call :: contexts tr'
  | _ :: tr' => contexts tr'
  end.


(** The sequence handed to each turn extends the one handed to the turn
    before. *)
Definition append_only {A : Type} (sequences : list (list A)) : Prop :=
  forall (i : nat) (earlier later : list A),
    nth_error sequences i = Some earlier ->
    nth_error sequences (S i) = Some later ->
    exists added, later = (earlier ++ added)%list.




Lemma transport_error_lookup_result (packageName ecoSystem : string) (cause : error) :
  transport_error (report_url packageName ecoSystem) = Some cause ->
  lookup_result packageName ecoSystem = inr cause.
Proof.
  unfold transport_error, lookup_result.
  destruct (NewRequest w _) as [err |].
  - intros [= ->]. reflexivity.
  - destruct (do_result _) as [resp | err].
    + destruct (Body resp) as [body | err]; [discriminate |].
      intros [= ->]. reflexivity.
    + intros [= ->]. reflexivity.
Qed.

End Runs.
End TrustyFacts.

(** ** The claims about the orchestration *)

Module Claims.
Import Bytes Trusty TrustyFacts Scenario.

(** Scenario A of the specification, end to end. *)
Example scenario_A :
  run world_A question
  = (Return DONE,
     {| now := 7 * time_Second;
        trace := trace (snd (run world_A question));
        stdout := "Response:" ++ str newline ++ "left-pad is safe to use."
                  ++ str newline;
        stderr := ["Handling trustyReport function call";
                   "Handling trustyReport response"] |})
  /\ lookups (trace (snd (run world_A question))) = [EvLookup "left-pad" "npm"]
  /\ length (chats (trace (snd (run world_A question)))) = 3%nat.
Proof. split; [reflexivity | split; reflexivity]. Qed.

Lemma literal_lawful : Json.lawful literal.
Proof.
  intros lit f Hlit [= <-]. repeat split. exact Hlit.
Qed.

(** C2.  When the first reply carries no tool call, [main] returns at its
    direct-answer exit with status 0 after that single model turn: the trace
    holds the first turn and nothing else.  What it prints is the fixed notice
    line, then the label and the reply's content byte for byte. *)
Theorem direct_answer_verbatim {SC : Json.Strconv} (w : World)
    (userPrompt : list string) (resp : OllamaResponse) :
  chat_result (first_return w userPrompt) = inl resp ->
  ToolCalls (Message resp) = [] ->
  let r := run w userPrompt in
  fst r = Return DIRECT_ANSWER
  /\ exit_status (fst r) = 0%N
  /\ stdout (snd r)
     = direct_notice ++ str newline
       ++ "Content:  " ++ Content (Message resp) ++ str newline
  /\ trace (snd r) = [first_event w userPrompt].
Proof.
  intros Hfirst Hcalls r. subst r.
  rewrite run_first_turn, Hfirst, Hcalls.
  repeat split.
Qed.

Lemma direct_answer_verbatim_witness :
  let r := run world_direct question in
  fst r = Return DIRECT_ANSWER
  /\ exit_status (fst r) = 0%N
  /\ stdout (snd r)
     = direct_notice ++ str newline ++ "Content:  left-pad is fine." ++ str newline
  /\ trace (snd r) = [first_event world_direct question].
Proof.
  apply (direct_answer_verbatim world_direct question (reply "left-pad is fine." []));
    reflexivity.
Defined.

(** C3.  When the first tool call of the first reply names anything but
    [trustyReport], the run ends in [log.Fatalf] with the unexpected name and
    exit status 1.  The trace holds the first turn only: no further model turn,
    no call of the lookup and no HTTP request. *)
Theorem unexpected_tool_is_fatal {SC : Json.Strconv} (w : World)
    (userPrompt : list string) (resp : OllamaResponse)
    (call0 : OllamaToolCall) (rest : list OllamaToolCall) :
  chat_result (first_return w userPrompt) = inl resp ->
  ToolCalls (Message resp) = call0 :: rest ->
  Name (Function call0) <> "trustyReport" ->
  let r := run w userPrompt in
  fst r = Exit (UnexpectedToolError (Name (Function call0)))
  /\ exit_status (fst r) = 1%N
  /\ trace (snd r) = [first_event w userPrompt]
  /\ chats (trace (snd r)) = [first_event w userPrompt]
  /\ lookups (trace (snd r)) = []
  /\ requests (trace (snd r)) = []
  /\ stdout (snd r) = EmptyString
  /\ stderr (snd r) = ["unexpected function call: " ++ Name (Function call0)].
Proof.
  intros Hfirst Hcalls Hname r. subst r.
  rewrite (run_unexpected_tool w userPrompt resp call0 rest) by assumption.
  repeat split.
Qed.

Lemma unexpected_tool_is_fatal_witness :
  let r := run world_other question in
  fst r = Exit (UnexpectedToolError "otherTool")
  /\ exit_status (fst r) = 1%N
  /\ trace (snd r) = [first_event world_other question]
  /\ chats (trace (snd r)) = [first_event world_other question]
  /\ lookups (trace (snd r)) = []
  /\ requests (trace (snd r)) = []
  /\ stdout (snd r) = EmptyString
  /\ stderr (snd r) = ["unexpected function call: otherTool"].
Proof.
  apply (unexpected_tool_is_fatal world_other question
           (reply EmptyString [call "otherTool" None; left_pad])
           (call "otherTool" None) [left_pad]);
    [reflexivity | reflexivity | discriminate].
Defined.

(** C7.  Before any lookup the invoker asks the call for "package_name" and
    then for "ecosystem" and asserts each to be a string.  When the first one
    that is absent or not a string is [arg], the run ends in [log.Fatalf]
    naming it, with exit status 1: the trace holds the first model turn only,
    so nothing is retried, [trustyReport] is not called and no HTTP request is
    sent. *)
Theorem argument_error_is_fatal {SC : Json.Strconv} (w : World)
    (userPrompt : list string) (resp : OllamaResponse)
    (call0 : OllamaToolCall) (rest : list OllamaToolCall) :
  chat_result (first_return w userPrompt) = inl resp ->
  ToolCalls (Message resp) = call0 :: rest ->
  Name (Function call0) = "trustyReport" ->
  as_string (index (Arguments (Function call0)) "package_name") = None
  \/ as_string (index (Arguments (Function call0)) "ecosystem") = None ->
  let r := run w userPrompt in
  exists arg : required,
    missing_argument (Function call0) = Some arg
    /\ fst r = Exit (ArgumentError arg)
    /\ exit_status (fst r) = 1%N
    /\ trace (snd r) = [first_event w userPrompt]
    /\ lookups (trace (snd r)) = []
    /\ requests (trace (snd r)) = []
    /\ stdout (snd r) = EmptyString.
Proof.
  intros Hfirst Hcalls Hname Hbad r. subst r.
  assert (exists arg, missing_argument (Function call0) = Some arg) as [arg Hmiss].
  { unfold missing_argument.
    destruct (as_string (index (Arguments (Function call0)) "package_name")).
    - destruct Hbad as [Hbad | Hbad]; [discriminate |].
      rewrite Hbad. eexists. reflexivity.
    - eexists. reflexivity. }
  exists arg.
  rewrite (run_missing_argument w userPrompt resp call0 rest arg) by assumption.
  repeat split. assumption.
Qed.

Lemma argument_error_is_fatal_witness :
  let r := run world_mistyped question in
  exists arg : required,
    missing_argument (Function mistyped) = Some arg
    /\ fst r = Exit (ArgumentError arg)
    /\ exit_status (fst r) = 1%N
    /\ trace (snd r) = [first_event world_mistyped question]
    /\ lookups (trace (snd r)) = []
    /\ requests (trace (snd r)) = []
    /\ stdout (snd r) = EmptyString.
Proof.
  apply (argument_error_is_fatal world_mistyped question
           (reply EmptyString [mistyped]) mistyped []);
    [reflexivity | reflexivity | reflexivity | right; reflexivity].
Defined.

(** C1, as the program has it.  When the lookup fails at the transport level,
    that is when the request cannot be built, [client.Do] returns an error or
    the body cannot be read, the run ends in [log.Fatalf] with that very error
    as the cause and in the logged line, and the first model turn stays the
    only one.  The status code of a response is not looked at. *)
Theorem lookup_failure_is_fatal {SC : Json.Strconv} (w : World)
    (userPrompt : list string) (resp : OllamaResponse)
    (call0 : OllamaToolCall) (rest : list OllamaToolCall)
    (packageName ecoSystem : string) (cause : error) :
  chat_result (first_return w userPrompt) = inl resp ->
  ToolCalls (Message resp) = call0 :: rest ->
  Name (Function call0) = "trustyReport" ->
  as_string (index (Arguments (Function call0)) "package_name") = Some packageName ->
  as_string (index (Arguments (Function call0)) "ecosystem") = Some ecoSystem ->
  transport_error w (report_url packageName ecoSystem) = Some cause ->
  let r := run w userPrompt in
  fst r = Exit (LookupError cause)
  /\ chats (trace (snd r)) = [first_event w userPrompt]
  /\ stderr (snd r) = ["Handling trustyReport function call";
                       "failed to get trusty report: " ++ error_text cause].
Proof.
  intros Hfirst Hcalls Hname Hpkg Heco Hfail r. subst r.
  rewrite (run_tool_path w userPrompt resp packageName ecoSystem call0 rest)
    by assumption.
  unfold tool_run.
  rewrite (transport_error_lookup_result w _ _ _ Hfail).
  cbn [fst snd trace stderr].
  repeat split.
  change (first_event w userPrompt :: lookup_events w packageName ecoSystem)
    with ([first_event w userPrompt] ++ lookup_events w packageName ecoSystem)%list.
  rewrite chats_app, chats_lookup_events. reflexivity.
Qed.

Lemma lookup_failure_is_fatal_witness :
  let r := run world_down question in
  fst r = Exit (LookupError (Error "Get: dial tcp: i/o timeout"))
  /\ chats (trace (snd r)) = [first_event world_down question]
  /\ stderr (snd r) = ["Handling trustyReport function call";
                       "failed to get trusty report: Get: dial tcp: i/o timeout"].
Proof.
  apply (lookup_failure_is_fatal world_down question
           (reply EmptyString [left_pad]) left_pad [] "left-pad" "npm"
           (Error "Get: dial tcp: i/o timeout"));
    reflexivity.
Defined.

(** C1 as stated fails: the lookup returns the status 404, yet the run is not
    fatal, the body becomes the tool message and the second and third model
    turns are issued. *)
Lemma non_2xx_status_is_not_a_failure :
  let r := run world_404 question in
  do_result (Do world_404 (report_url "left-pad" "npm"))
    = inl {| StatusCode := 404; Body := inl "{}" |}
  /\ fst r = Return DONE
  /\ length (chats (trace (snd r))) = 3%nat
  /\ nth_error (contexts (trace (snd r))) 1
     = Some [user_message (first_prompt question);
             responseAsMap world_404 (Message (reply EmptyString [left_pad]));
             tool_message "{}"].
Proof.
  vm_compute. repeat split.
Qed.



(** C4, as the program has it.  When the first tool call of the first reply
    names [trustyReport] and carries strings for "package_name" and
    "ecosystem", [trustyReport] is called exactly once, with exactly these two
    strings, and the only request that can be sent is the one for the address
    built from them.  This holds whatever tool calls follow the first one in
    the reply: none of them leads to a lookup. *)
Theorem lookup_once_with_call_arguments {SC : Json.Strconv} (w : World)
    (userPrompt : list string) (resp : OllamaResponse)
    (call0 : OllamaToolCall) (rest : list OllamaToolCall)
    (packageName ecoSystem : string) :
  chat_result (first_return w userPrompt) = inl resp ->
  ToolCalls (Message resp) = call0 :: rest ->
  Name (Function call0) = "trustyReport" ->
  as_string (index (Arguments (Function call0)) "package_name") = Some packageName ->
  as_string (index (Arguments (Function call0)) "ecosystem") = Some ecoSystem ->
  let r := run w userPrompt in
  lookups (trace (snd r)) = [EvLookup packageName ecoSystem]
  /\ requests (trace (snd r))
     = match NewRequest w (report_url packageName ecoSystem) with
       | Some _ => []
       | None => [EvHttp (report_url packageName ecoSystem)]
       end.
Proof.
  intros Hfirst Hcalls Hname Hpkg Heco r. subst r.
  rewrite (run_tool_path w userPrompt resp packageName ecoSystem call0 rest)
    by assumption.
  unfold tool_run, lookup_events.
  destruct (lookup_result w packageName ecoSystem) as [report | err].
  - destruct (chat_result (second_return w userPrompt resp packageName ecoSystem report))
      as [resp2 | err].
    + destruct (chat_result (third_return w userPrompt resp packageName ecoSystem report
                               (Content (Message resp2)))) as [resp3 | err];
        destruct (NewRequest w _); split; reflexivity.
    + destruct (NewRequest w _); split; reflexivity.
  - destruct (NewRequest w _); split; reflexivity.
Qed.

Lemma lookup_once_with_call_arguments_witness :
  let r := run world_three_calls question in
  lookups (trace (snd r)) = [EvLookup "left-pad" "npm"]
  /\ requests (trace (snd r))
     = match NewRequest world_three_calls (report_url "left-pad" "npm") with
       | Some _ => []
       | None => [EvHttp (report_url "left-pad" "npm")]
       end.
Proof.
  apply (lookup_once_with_call_arguments world_three_calls question
           (reply EmptyString [left_pad; call "otherTool" None; mistyped])
           left_pad [call "otherTool" None; mistyped] "left-pad" "npm");
    reflexivity.
Defined.

(** C4 as stated fails: the first tool call names [trustyReport], but its
    ecosystem is not a string, and the lookup is not invoked at all. *)
Lemma lookup_skipped_on_bad_arguments :
  let r := run world_mistyped question in
  chat_result (first_return world_mistyped question)
    = inl (reply EmptyString [mistyped])
  /\ Name (Function mistyped) = "trustyReport"
  /\ lookups (trace (snd r)) = []
  /\ requests (trace (snd r)) = [].
Proof.
  vm_compute. repeat split.
Qed.




(** C8, as the program has it.  From the prompt to the turn that follows the
    tool call the conversation only grows: the second turn is handed the
    first turn's sequence with the reply and the tool message appended, in
    this order.  The third turn is not handed that sequence but a new one of
    two messages, the second turn's answer and the request for a summary. *)
Theorem conversation_grows_until_summary {SC : Json.Strconv} (w : World)
    (userPrompt : list string) :
  let r := run w userPrompt in
  let first := [user_message (first_prompt userPrompt)] in
  exists later,
    contexts (trace (snd r)) = first :: later
    /\ (later = []
        \/ exists reply report,
             later = [(first ++ [reply; tool_message report])%list]
             \/ exists content,
                  later = [(first ++ [reply; tool_message report])%list;
                           [user_message content; user_message summaryRequest]]).
Proof.
  intros r first. subst r first.
  destruct (run_course w userPrompt)
    as [err Hfirst | resp Hfirst Hcalls | resp call0 rest Hfirst Hcalls Hname
        | resp call0 rest arg Hfirst Hcalls Hname Hmiss
        | resp call0 rest packageName ecoSystem Hfirst Hcalls Hname Hpkg Heco].
  1-4: exists []; split; [reflexivity | left; reflexivity].
  unfold tool_run.
  destruct (lookup_result w packageName ecoSystem) as [report | err].
  - destruct (chat_result (second_return w userPrompt resp packageName ecoSystem report))
      as [resp2 | err2].
    + eexists. split.
      * destruct (chat_result (third_return w userPrompt resp packageName ecoSystem report
                                 (Content (Message resp2))));
          unfold lookup_events; destruct (NewRequest w _); reflexivity.
      * right. eexists. eexists. right. eexists. reflexivity.
    + eexists. split.
      * unfold lookup_events; destruct (NewRequest w _); reflexivity.
      * right. eexists. eexists. left. reflexivity.
  - exists []. split; [| left; reflexivity].
    unfold lookup_events; destruct (NewRequest w _); reflexivity.
Qed.

(** C8 as stated fails: in scenario A the sequence handed to the third turn
    does not extend the one handed to the second. *)
Lemma summary_turn_drops_the_conversation :
  ~ append_only (contexts (trace (snd (run world_A question)))).
Proof.
  intros Happend.
  destruct (Happend 1%nat
              [user_message (first_prompt question);
               responseAsMap world_A (Message (reply EmptyString [left_pad]));
               tool_message (Json.print 0 (Json.JObject [("score", Json.JNumber (SC := literal) "0.9")]))]
              [user_message "looks fine"; user_message summaryRequest])
    as [added Hadded].
  - vm_compute. reflexivity.
  - vm_compute. reflexivity.
  - vm_compute in Hadded. discriminate Hadded.
Qed.

(** C10.  When the first reply cannot be turned into a map, because
    [json.Marshal] fails or because its output does not decode,
    [responseAsMap] returns the [nil] map and no error.  The run goes on: with
    a well-formed [trustyReport] call and a report, the second model turn is
    issued, and the sequence it is handed has the [nil] map where the
    assistant's reply belongs. *)
Theorem nil_message_reaches_the_model {SC : Json.Strconv} (w : World)
    (userPrompt : list string) (resp : OllamaResponse)
    (call0 : OllamaToolCall) (rest : list OllamaToolCall)
    (packageName ecoSystem report : string) :
  (forall data, Marshal w (Message resp) = inl data -> Json.Unmarshal data = None) ->
  chat_result (first_return w userPrompt) = inl resp ->
  ToolCalls (Message resp) = call0 :: rest ->
  Name (Function call0) = "trustyReport" ->
  as_string (index (Arguments (Function call0)) "package_name") = Some packageName ->
  as_string (index (Arguments (Function call0)) "ecosystem") = Some ecoSystem ->
  lookup_result w packageName ecoSystem = inl report ->
  let r := run w userPrompt in
  responseAsMap w (Message resp) = None
  /\ nth_error (contexts (trace (snd r))) 1
     = Some [user_message (first_prompt userPrompt); None; tool_message report].
Proof.
  intros Hfail Hfirst Hcalls Hname Hpkg Heco Hlook r. subst r.
  assert (responseAsMap w (Message resp) = None) as Hnil.
  { unfold responseAsMap.
    destruct (Marshal w (Message resp)) as [data | err]; [| reflexivity].
    rewrite (Hfail data eq_refl). reflexivity. }
  split; [exact Hnil |].
  rewrite (run_tool_path w userPrompt resp packageName ecoSystem call0 rest)
    by assumption.
  unfold tool_run. rewrite Hlook.
  destruct (chat_result (second_return w userPrompt resp packageName ecoSystem report))
    as [resp2 | err2].
  - destruct (chat_result (third_return w userPrompt resp packageName ecoSystem report
                             (Content (Message resp2))));
      unfold lookup_events; destruct (NewRequest w _);
      cbn [snd trace app contexts nth_error second_event second_call chat_messages];
      rewrite Hnil; reflexivity.
  - unfold lookup_events; destruct (NewRequest w _);
      cbn [snd trace app contexts nth_error second_event second_call chat_messages];
      rewrite Hnil; reflexivity.
Qed.

Lemma nil_message_reaches_the_model_witness :
  let r := run world_unencodable question in
  responseAsMap world_unencodable (Message (reply EmptyString [left_pad])) = None
  /\ nth_error (contexts (trace (snd r))) 1
     = Some [user_message (first_prompt question); None;
             tool_message (Json.print 0 (Json.JObject [("score", Json.JNumber (SC := literal) "0.9")]))].
Proof.
  apply (nil_message_reaches_the_model world_unencodable question
           (reply EmptyString [left_pad]) left_pad [] "left-pad" "npm");
    [discriminate | reflexivity ..].
Defined.



End Claims.

(** ** Further behaviour of the program *)

Module Behaviour.
Import Bytes Trusty TrustyFacts Scenario.

(** *** More worlds to run the program in *)

(** A report endpoint that answers after forty seconds. *)
Definition world_slow : World :=
  world (inl (reply EmptyString [left_pad]))
        {| do_result := inl {| StatusCode := 200; Body := inl score_body |};
           do_took := 40 * time_Second |}
        encode_message.

(** A report endpoint that answers with a JSON array. *)
Definition world_array : World :=
  world (inl (reply EmptyString [left_pad])) (answered 200 "[1, 2]") encode_message.

(** A report endpoint that answers with [null] between blanks. *)
Definition world_null : World :=
  world (inl (reply EmptyString [left_pad])) (answered 200 " null ") encode_message.

(** A report endpoint that answers with a report as [trustyReport] returns
    it. *)
Definition pretty_score : string :=
  Json.print 0 (Json.JObject [("score", Json.JNumber (SC := literal) "0.9")]).

Definition world_pretty : World :=
  world (inl (reply EmptyString [left_pad])) (answered 200 pretty_score) encode_message.

(** *** The same world with other status codes *)

Section Status.
Context {SC : Json.Strconv}.

(** [w] with every response's status code [s] turned into [f s]. *)
Definition with_status (f : N -> N) (w : World) : World :=
  {| chat := chat w;
     NewRequest := NewRequest w;
     Do := fun url =>
       {| do_result :=
            match do_result (Do w url) with
            | inl resp => inl {| StatusCode := f (StatusCode resp); Body := Body resp |}
            | inr err => inr err
            end;
          do_took := do_took (Do w url) |};
     Marshal := Marshal w |}.

End Status.

(** *** The tool descriptor read as data *)

Section Descriptor.
Context {SC : Json.Strconv}.

(** The entry [k] of a value that is an object. *)
Definition field (k : string) (v : option any) : option any :=
  match v with
  | Some (Json.JObject m) => Json.lookup k m
  | _ => None
  end.

(** The strings of a value that is an array. *)
Definition strings (v : option any) : list string :=
  match v with
  | Some (Json.JArray l) =>
    flat_map (fun x => match x with Json.JString s => [s] | _ => [] end) l
  | _ => []
  end.

Definition parameters : option any :=
  field "parameters" (index trustyTool "function").

(** The names [trustyTool] lists under "required". *)
Definition required_names : list string :=
  strings (field "required" parameters).

(** The "type" that [trustyTool] declares for the property [name]. *)
Definition declared_type (name : string) : option any :=
  field "type" (field name (field "properties" parameters)).

End Descriptor.

(** *** Case analysis on a run *)

Ltac courses w userPrompt :=
  destruct (run_course w userPrompt)
    as [err Hfirst | resp Hfirst Hcalls | resp call0 rest Hfirst Hcalls Hname
        | resp call0 rest arg Hfirst Hcalls Hname Hmiss
        | resp call0 rest packageName ecoSystem Hfirst Hcalls Hname Hpkg Heco].

(** The ways a run goes on after a well-formed tool call: the request, the
    body, the report, then the second and the third reply. *)
Ltac tool_courses w userPrompt resp packageName ecoSystem :=
  unfold tool_run, lookup_result, lookup_events, lookup_took;
  destruct (NewRequest w (report_url packageName ecoSystem)) as [reqerr |] eqn:Hreq;
  [| destruct (do_result (Do w (report_url packageName ecoSystem)))
       as [answer | doerr] eqn:Hdo;
     [ destruct (Body answer) as [body | readerr] eqn:Hbody;
       [ destruct (report_of_body body) as [report | jsonerr] eqn:Hreport;
         [ destruct (chat_result (second_return w userPrompt resp packageName ecoSystem report))
             as [resp2 | err2] eqn:Hsecond;
           [ destruct (chat_result (third_return w userPrompt resp packageName ecoSystem report
                                      (Content (Message resp2)))) as [resp3 | err3] eqn:Hthird
           | ]
         | ]
       | ]
     | ] ].

Lemma as_string_some {SC : Json.Strconv} (x : option any) (s : string) :
  as_string x = Some s -> x = Some (Json.JString s).
Proof.
  destruct x as [[| b | f | s' | l | m] |]; try discriminate.
  intros [= <-]. reflexivity.
Qed.

Lemma report_url_split (a b c : string) :
  report_url a (b ++ "&package_type=" ++ c)
  = report_url (a ++ "&package_type=" ++ b) c.
Proof.
  unfold report_url. rewrite !BytesFacts.append_assoc. reflexivity.
Qed.

Lemma report_of_body_again {SC : Json.Strconv} (body report : string) :
  Json.lawful SC ->
  report_of_body body = inl report -> report_of_body report = inl report.
Proof.
  intros laws. unfold report_of_body.
  destruct (Json.Unmarshal body) as [m |] eqn:Hdecode; [| discriminate].
  destruct (PrintFacts.Unmarshal_MarshalIndent laws body m Hdecode)
    as (text & Hencode & Hagain).
  rewrite Hencode. intros [= <-]. rewrite Hagain, Hencode. reflexivity.
Qed.

Lemma trustyReport_result {SC : Json.Strconv} (w : World)
    (packageName ecosystem : string) (st : State) :
  fst (trustyReport w packageName ecosystem st)
  = Return (lookup_result w packageName ecosystem).
Proof. rewrite trustyReport_run. reflexivity. Qed.

(** X1.  Whatever the backend and the endpoint answer, a run asks the model
    at least once and at most three times, calls [trustyReport] at most once,
    and sends at most one request, and only from within that call: nothing is
    retried.  The model is asked a second time only after a request was
    sent. *)
Theorem run_is_bounded {SC : Json.Strconv} (w : World) (userPrompt : list string) :
  let tr := trace (snd (run w userPrompt)) in
  (1 <= length (chats tr) <= 3)%nat
  /\ (length (requests tr) <= length (lookups tr) <= 1)%nat
  /\ (1 < length (chats tr) -> length (requests tr) = 1)%nat.
Proof.
  intros tr. subst tr.
  courses w userPrompt.
  1-4: cbn; repeat split; lia.
  tool_courses w userPrompt resp packageName ecoSystem; cbn; repeat split; lia.
Qed.

(** X2.  The tool descriptor goes with the first model turn and with no
    other: the first [Chat] of a run is handed the one-element list holding
    [trustyTool], every later one the [nil] tool list. *)
Theorem tools_are_offered_once {SC : Json.Strconv} (w : World)
    (userPrompt : list string) (n : nat) (call : ChatCall) (returned : N) :
  nth_error (chats (trace (snd (run w userPrompt)))) n = Some (EvChat call returned) ->
  chat_tools call = match n with
                    | O => Some [trustyTool]
                    | S _ => None
                    end.
Proof.
  courses w userPrompt.
  1-4: destruct n as [| n]; cbn; [intros [= <- _]; reflexivity | destruct n; discriminate].
  tool_courses w userPrompt resp packageName ecoSystem;
    destruct n as [| [| [| n]]]; cbn;
    try (intros [= <- _]; reflexivity); try discriminate;
    destruct n; discriminate.
Qed.

Lemma tools_are_offered_once_witness :
  chat_tools (third_call world_A question (reply EmptyString [left_pad])
                "left-pad" "npm" pretty_score "looks fine") = None.
Proof.
  apply (tools_are_offered_once world_A question 2
           (third_call world_A question (reply EmptyString [left_pad])
              "left-pad" "npm" pretty_score "looks fine")
           (7 * time_Second)).
  reflexivity.
Defined.

(** X3.  A run that ends in [log.Fatal] has exit status 1, has written
    nothing at all to standard output, and the last line it logged is the
    message of that failure. *)
Theorem fatal_run_prints_nothing {SC : Json.Strconv} (w : World)
    (userPrompt : list string) (f : fatal) :
  fst (run w userPrompt) = Exit f ->
  exit_status (fst (run w userPrompt)) = 1%N
  /\ stdout (snd (run w userPrompt)) = EmptyString
  /\ last (stderr (snd (run w userPrompt))) EmptyString = fatal_message f.
Proof.
  courses w userPrompt.
  1-4: cbn [fst snd stdout stderr]; intros Hf; try discriminate Hf;
    injection Hf as <-; repeat split.
  tool_courses w userPrompt resp packageName ecoSystem;
    cbn [fst snd stdout stderr]; intros Hf; try discriminate Hf;
    injection Hf as <-; repeat split.
Qed.

Lemma fatal_run_prints_nothing_witness :
  exit_status (fst (run world_down question)) = 1%N
  /\ stdout (snd (run world_down question)) = EmptyString
  /\ last (stderr (snd (run world_down question))) EmptyString
     = "failed to get trusty report: Get: dial tcp: i/o timeout".
Proof.
  apply (fatal_run_prints_nothing world_down question
           (LookupError (Error "Get: dial tcp: i/o timeout"))).
  reflexivity.
Defined.

(** X4.  Something is written to standard output exactly when the run ends
    with exit status 0. *)
Theorem answer_iff_success {SC : Json.Strconv} (w : World)
    (userPrompt : list string) :
  stdout (snd (run w userPrompt)) <> EmptyString
  <-> exit_status (fst (run w userPrompt)) = 0%N.
Proof.
  courses w userPrompt.
  1-4: cbn; split; intros H; try reflexivity; try discriminate H;
    try (exfalso; apply H; reflexivity); discriminate.
  tool_courses w userPrompt resp packageName ecoSystem;
    cbn; split; intros H; try reflexivity; try discriminate H;
    try (exfalso; apply H; reflexivity); discriminate.
Qed.

(** X5.  What stands behind a normal return of [main].  At the direct-answer
    exit the first reply carried no tool call and the first turn is all that
    happened.  At the final exit there were exactly three model turns, the
    second and the third both answered without error, the third was asked
    with the second reply's content as a user message followed by the request
    for a summary, what is printed is the third reply's content between
    the heading line and a line break, and exactly one request was sent. *)
Theorem successful_run {SC : Json.Strconv} (w : World)
    (userPrompt : list string) (p : exit_point) :
  fst (run w userPrompt) = Return p ->
  match p with
  | DIRECT_ANSWER =>
    exists resp,
      chat_result (first_return w userPrompt) = inl resp
      /\ ToolCalls (Message resp) = []
      /\ trace (snd (run w userPrompt)) = [first_event w userPrompt]
  | DONE =>
    exists call2 t2 resp2 call3 t3 resp3,
      chats (trace (snd (run w userPrompt)))
      = [first_event w userPrompt; EvChat call2 t2; EvChat call3 t3]
      /\ chat_result (chat w 1 call2) = inl resp2
      /\ chat_messages call3
         = [user_message (Content (Message resp2)); user_message summaryRequest]
      /\ chat_result (chat w 2 call3) = inl resp3
      /\ stdout (snd (run w userPrompt))
         = "Response:" ++ str newline ++ Content (Message resp3) ++ str newline
      /\ length (requests (trace (snd (run w userPrompt)))) = 1%nat
  end.
Proof.
  courses w userPrompt.
  1-4: cbn [fst snd trace]; intros Hp; try discriminate Hp; injection Hp as <-.
  { exists resp. repeat split; assumption. }
  tool_courses w userPrompt resp packageName ecoSystem;
    cbn [fst snd trace stdout]; intros Hp; try discriminate Hp; injection Hp as <-.
  exists (second_call w userPrompt resp packageName ecoSystem report),
         (second_time w userPrompt resp packageName ecoSystem report),
         resp2,
         (third_call w userPrompt resp packageName ecoSystem report
            (Content (Message resp2))),
         (second_time w userPrompt resp packageName ecoSystem report
          + chat_took (third_return w userPrompt resp packageName ecoSystem report
                         (Content (Message resp2))))%N,
         resp3.
  repeat split; assumption.
Qed.

Lemma successful_run_witness :
  exists call2 t2 resp2 call3 t3 resp3,
    chats (trace (snd (run world_A question)))
    = [first_event world_A question; EvChat call2 t2; EvChat call3 t3]
    /\ chat_result (chat world_A 1 call2) = inl resp2
    /\ chat_messages call3
       = [user_message (Content (Message resp2)); user_message summaryRequest]
    /\ chat_result (chat world_A 2 call3) = inl resp3
    /\ stdout (snd (run world_A question))
       = "Response:" ++ str newline ++ Content (Message resp3) ++ str newline
    /\ length (requests (trace (snd (run world_A question)))) = 1%nat.
Proof.
  apply (successful_run world_A question DONE). reflexivity.
Defined.

(** X6.  After a well-formed tool call the second scope is made before the
    lookup, and the request does not carry it: the second [Chat] starts later
    than its scope was created by the time the lookup took, while the first
    and the third start the moment theirs is created.  A lookup of more than
    thirty seconds therefore hands the backend a scope that has already
    expired. *)
Theorem lookup_spends_the_second_scope {SC : Json.Strconv} (w : World)
    (userPrompt : list string) (resp : OllamaResponse)
    (call0 : OllamaToolCall) (rest : list OllamaToolCall)
    (packageName ecoSystem : string)
    (n : nat) (call : ChatCall) (returned : N) :
  chat_result (first_return w userPrompt) = inl resp ->
  ToolCalls (Message resp) = call0 :: rest ->
  Name (Function call0) = "trustyReport" ->
  as_string (index (Arguments (Function call0)) "package_name") = Some packageName ->
  as_string (index (Arguments (Function call0)) "ecosystem") = Some ecoSystem ->
  nth_error (chats (trace (snd (run w userPrompt)))) n = Some (EvChat call returned) ->
  let spent := match n with
               | 1%nat => lookup_took w packageName ecoSystem
               | _ => 0%N
               end in
  chat_start call = (created (chat_ctx call) + spent)%N
  /\ deadline (chat_ctx call) = (created (chat_ctx call) + 30 * time_Second)%N
  /\ ((30 * time_Second < spent)%N -> (deadline (chat_ctx call) < chat_start call)%N).
Proof.
  intros Hfirst Hcalls Hname Hpkg Heco.
  rewrite (run_tool_path w userPrompt resp packageName ecoSystem call0 rest)
    by assumption.
  unfold tool_run.
  destruct (lookup_result w packageName ecoSystem) as [report | err].
  - destruct (chat_result (second_return w userPrompt resp packageName ecoSystem report))
      as [resp2 | err2];
      [ destruct (chat_result (third_return w userPrompt resp packageName ecoSystem report
                                 (Content (Message resp2)))) as [resp3 | err3] |];
      unfold lookup_events; destruct (NewRequest w _) as [reqerr |];
      destruct n as [| [| [| n]]]; cbn [snd trace app chats filter is_chat nth_error
        first_event second_event third_event];
      try (intros [= <- _]; cbn; repeat split; lia); try discriminate;
      destruct n; discriminate.
  - unfold lookup_events; destruct (NewRequest w _) as [reqerr |];
      destruct n as [| n]; cbn [snd trace app chats filter is_chat nth_error first_event];
      try (intros [= <- _]; cbn; repeat split; lia);
      destruct n; discriminate.
Qed.

Lemma lookup_spends_the_second_scope_witness :
  let call := second_call world_slow question (reply EmptyString [left_pad])
                "left-pad" "npm" pretty_score in
  chat_start call = (created (chat_ctx call) + 40 * time_Second)%N
  /\ deadline (chat_ctx call) = (created (chat_ctx call) + 30 * time_Second)%N
  /\ ((30 * time_Second < 40 * time_Second)%N
      -> (deadline (chat_ctx call) < chat_start call)%N).
Proof.
  apply (lookup_spends_the_second_scope world_slow question
           (reply EmptyString [left_pad]) left_pad [] "left-pad" "npm" 1
           (second_call world_slow question (reply EmptyString [left_pad])
              "left-pad" "npm" pretty_score)
           (44 * time_Second));
    reflexivity.
Defined.

(** X7.  When the first reply is encoded by [json.Marshal] and the result
    decodes into a map, that map is what the second model turn is handed
    between the prompt and the tool message, and the tool message carries the
    role "tool" and the report that [trustyReport] returned. *)
Theorem reply_is_kept_in_context {SC : Json.Strconv} (w : World)
    (userPrompt : list string) (resp : OllamaResponse)
    (call0 : OllamaToolCall) (rest : list OllamaToolCall)
    (packageName ecoSystem report data : string) (m : map_string_any) :
  chat_result (first_return w userPrompt) = inl resp ->
  ToolCalls (Message resp) = call0 :: rest ->
  Name (Function call0) = "trustyReport" ->
  as_string (index (Arguments (Function call0)) "package_name") = Some packageName ->
  as_string (index (Arguments (Function call0)) "ecosystem") = Some ecoSystem ->
  fst (trustyReport w packageName ecoSystem initial) = Return (inl report) ->
  Marshal w (Message resp) = inl data ->
  Json.Unmarshal data = Some m ->
  nth_error (contexts (trace (snd (run w userPrompt)))) 1
  = Some [user_message (promptBase ++ " " ++ String.concat " " userPrompt);
          m;
          map_literal [("role", Json.JString "tool");
                       ("content", Json.JString report)]].
Proof.
  intros Hfirst Hcalls Hname Hpkg Heco Hlook Hdata Hm.
  rewrite trustyReport_result in Hlook. injection Hlook as Hlook.
  assert (responseAsMap w (Message resp) = m) as Hmap.
  { unfold responseAsMap. rewrite Hdata, Hm. reflexivity. }
  rewrite (run_tool_path w userPrompt resp packageName ecoSystem call0 rest)
    by assumption.
  unfold tool_run. rewrite Hlook.
  destruct (chat_result (second_return w userPrompt resp packageName ecoSystem report))
    as [resp2 | err2];
    [ destruct (chat_result (third_return w userPrompt resp packageName ecoSystem report
                               (Content (Message resp2)))) |];
    unfold lookup_events; destruct (NewRequest w _);
    cbn [snd trace app contexts nth_error first_event second_event second_call
         chat_messages];
    rewrite Hmap; reflexivity.
Qed.

Lemma reply_is_kept_in_context_witness :
  nth_error (contexts (trace (snd (run world_A question)))) 1
  = Some [user_message (promptBase ++ " " ++ String.concat " " question);
          Some [("content", Json.JString EmptyString);
                ("role", Json.JString "assistant")];
          map_literal [("role", Json.JString "tool");
                       ("content", Json.JString pretty_score)]].
Proof.
  eapply (reply_is_kept_in_context world_A question
            (reply EmptyString [left_pad]) left_pad [] "left-pad" "npm");
    reflexivity.
Defined.

(** X8.  When the endpoint answers with a body that [json.Unmarshal] cannot
    store in a map, be it malformed or a JSON value that is neither an object
    nor null, the run ends in the [log.Fatalf] of a failed lookup.  The
    request was sent, the first model turn stays the only one, and nothing is
    printed. *)
Theorem undecodable_report_is_fatal {SC : Json.Strconv} (w : World)
    (userPrompt : list string) (resp : OllamaResponse)
    (call0 : OllamaToolCall) (rest : list OllamaToolCall)
    (packageName ecoSystem : string) (answer : Response) (body : string) :
  chat_result (first_return w userPrompt) = inl resp ->
  ToolCalls (Message resp) = call0 :: rest ->
  Name (Function call0) = "trustyReport" ->
  as_string (index (Arguments (Function call0)) "package_name") = Some packageName ->
  as_string (index (Arguments (Function call0)) "ecosystem") = Some ecoSystem ->
  NewRequest w (report_url packageName ecoSystem) = None ->
  do_result (Do w (report_url packageName ecoSystem)) = inl answer ->
  Body answer = inl body ->
  Json.Unmarshal body = None ->
  fst (run w userPrompt) = Exit (LookupError JsonError)
  /\ chats (trace (snd (run w userPrompt))) = [first_event w userPrompt]
  /\ requests (trace (snd (run w userPrompt)))
     = [EvHttp (report_url packageName ecoSystem)]
  /\ stdout (snd (run w userPrompt)) = EmptyString.
Proof.
  intros Hfirst Hcalls Hname Hpkg Heco Hreq Hdo Hbody Hdecode.
  rewrite (run_tool_path w userPrompt resp packageName ecoSystem call0 rest)
    by assumption.
  unfold tool_run, lookup_result, lookup_events, report_of_body.
  rewrite Hreq, Hdo, Hbody, Hdecode.
  repeat split.
Qed.

Lemma undecodable_report_is_fatal_witness :
  fst (run world_array question) = Exit (LookupError JsonError)
  /\ chats (trace (snd (run world_array question))) = [first_event world_array question]
  /\ requests (trace (snd (run world_array question)))
     = [EvHttp (report_url "left-pad" "npm")]
  /\ stdout (snd (run world_array question)) = EmptyString.
Proof.
  apply (undecodable_report_is_fatal world_array question
           (reply EmptyString [left_pad]) left_pad [] "left-pad" "npm"
           {| StatusCode := 200; Body := inl "[1, 2]" |} "[1, 2]");
    reflexivity.
Defined.

(** X9.  A body that is the JSON value [null] is no error: the map stays
    [nil], and the report [trustyReport] returns is the text null. *)
Theorem null_body_gives_null_report {SC : Json.Strconv} (w : World)
    (packageName ecosystem : string) (st : State) (answer : Response)
    (body : string) :
  NewRequest w (report_url packageName ecosystem) = None ->
  do_result (Do w (report_url packageName ecosystem)) = inl answer ->
  Body answer = inl body ->
  Json.Unmarshal body = Some None ->
  fst (trustyReport w packageName ecosystem st) = Return (inl "null").
Proof.
  intros Hreq Hdo Hbody Hdecode.
  rewrite trustyReport_result.
  unfold lookup_result, report_of_body.
  rewrite Hreq, Hdo, Hbody, Hdecode. reflexivity.
Qed.

Lemma null_body_gives_null_report_witness :
  fst (trustyReport world_null "left-pad" "npm" initial) = Return (inl "null").
Proof.
  apply (null_body_gives_null_report world_null "left-pad" "npm" initial
           {| StatusCode := 200; Body := inl " null " |} " null ");
    reflexivity.
Defined.

(** X10.  Once the body has been decoded, [trustyReport] cannot fail any
    more: [json.MarshalIndent] accepts whatever [json.Unmarshal] stored, so
    the error return that follows it is never taken and the report is
    returned.  The number conversions are assumed to keep their contract. *)
Theorem decoded_body_is_always_encoded {SC : Json.Strconv} (w : World)
    (packageName ecosystem : string) (st : State) (answer : Response)
    (body : string) (prettyJSON : map_string_any) :
  Json.lawful SC ->
  NewRequest w (report_url packageName ecosystem) = None ->
  do_result (Do w (report_url packageName ecosystem)) = inl answer ->
  Body answer = inl body ->
  Json.Unmarshal body = Some prettyJSON ->
  exists jsonString,
    Json.MarshalIndent prettyJSON = Some jsonString
    /\ fst (trustyReport w packageName ecosystem st) = Return (inl jsonString).
Proof.
  intros laws Hreq Hdo Hbody Hdecode.
  destruct (PrintFacts.Unmarshal_MarshalIndent laws body prettyJSON Hdecode)
    as (text & Hencode & _).
  exists text. split; [exact Hencode |].
  rewrite trustyReport_result.
  unfold lookup_result, report_of_body.
  rewrite Hreq, Hdo, Hbody, Hdecode, Hencode. reflexivity.
Qed.

Lemma decoded_body_is_always_encoded_witness :
  exists jsonString,
    Json.MarshalIndent (Some [("score", Json.JNumber (SC := literal) "0.9")])
    = Some jsonString
    /\ fst (trustyReport world_A "left-pad" "npm" initial) = Return (inl jsonString).
Proof.
  apply (decoded_body_is_always_encoded world_A "left-pad" "npm" initial
           {| StatusCode := 200; Body := inl score_body |} score_body);
    [exact Claims.literal_lawful | reflexivity ..].
Defined.

(** X11.  Normalising is idempotent: when an endpoint answers with a text
    that [trustyReport] once returned as a report, [trustyReport] returns
    that very text again. *)
Theorem report_is_a_fixed_point {SC : Json.Strconv} (w w' : World)
    (packageName ecosystem packageName' ecosystem' : string) (st st' : State)
    (answer : Response) (report : string) :
  Json.lawful SC ->
  fst (trustyReport w packageName ecosystem st) = Return (inl report) ->
  NewRequest w' (report_url packageName' ecosystem') = None ->
  do_result (Do w' (report_url packageName' ecosystem')) = inl answer ->
  Body answer = inl report ->
  fst (trustyReport w' packageName' ecosystem' st') = Return (inl report).
Proof.
  intros laws Hrun Hreq Hdo Hbody.
  rewrite trustyReport_result in Hrun. injection Hrun as Hrun.
  assert (exists body, report_of_body body = inl report) as [body Hreport].
  { unfold lookup_result in Hrun.
    destruct (NewRequest w _); [discriminate |].
    destruct (do_result _) as [resp |]; [| discriminate].
    destruct (Body resp) as [body |]; [| discriminate].
    exists body. exact Hrun. }
  rewrite trustyReport_result.
  unfold lookup_result. rewrite Hreq, Hdo, Hbody.
  rewrite (report_of_body_again body report laws Hreport). reflexivity.
Qed.

Lemma report_is_a_fixed_point_witness :
  fst (trustyReport world_pretty "left-pad" "npm" initial) = Return (inl pretty_score).
Proof.
  apply (report_is_a_fixed_point world_A world_pretty "left-pad" "npm"
           "left-pad" "npm" initial initial
           {| StatusCode := 200; Body := inl pretty_score |} pretty_score);
    [exact Claims.literal_lawful | reflexivity ..].
Defined.

(** X12.  Every report [trustyReport] returns is valid UTF-8, whatever bytes
    the body held. *)
Theorem report_is_valid_utf8 {SC : Json.Strconv} (w : World)
    (packageName ecosystem : string) (st : State) (report : string) :
  Json.lawful SC ->
  fst (trustyReport w packageName ecosystem st) = Return (inl report) ->
  Utf8.valid report = true.
Proof.
  intros laws Hrun. rewrite trustyReport_result in Hrun. injection Hrun as Hrun.
  unfold lookup_result in Hrun.
  destruct (NewRequest w _); [discriminate |].
  destruct (do_result _) as [resp |]; [| discriminate].
  destruct (Body resp) as [body |]; [| discriminate].
  unfold report_of_body in Hrun.
  destruct (Json.Unmarshal body) as [m |] eqn:Hdecode; [| discriminate].
  destruct (Json.MarshalIndent m) as [text |] eqn:Hencode; [| discriminate].
  injection Hrun as <-.
  exact (proj1 (TextFacts.MarshalIndent_text laws body text m Hdecode Hencode)).
Qed.

Lemma report_is_valid_utf8_witness : Utf8.valid pretty_score = true.
Proof.
  apply (report_is_valid_utf8 world_A "left-pad" "npm" initial pretty_score);
    [exact Claims.literal_lawful | reflexivity].
Defined.

(** X13.  No report holds one of the bytes [<], [>] and [&], nor a control
    byte other than the line breaks of the indentation: the encoder writes
    all of these as escapes. *)
Theorem report_holds_no_markup {SC : Json.Strconv} (w : World)
    (packageName ecosystem : string) (st : State) (report : string) :
  Json.lawful SC ->
  fst (trustyReport w packageName ecosystem st) = Return (inl report) ->
  TextFacts.every TextFacts.inert report = true.
Proof.
  intros laws Hrun. rewrite trustyReport_result in Hrun. injection Hrun as Hrun.
  unfold lookup_result in Hrun.
  destruct (NewRequest w _); [discriminate |].
  destruct (do_result _) as [resp |]; [| discriminate].
  destruct (Body resp) as [body |]; [| discriminate].
  unfold report_of_body in Hrun.
  destruct (Json.Unmarshal body) as [m |] eqn:Hdecode; [| discriminate].
  destruct (Json.MarshalIndent m) as [text |] eqn:Hencode; [| discriminate].
  injection Hrun as <-.
  exact (proj2 (TextFacts.MarshalIndent_text laws body text m Hdecode Hencode)).
Qed.

Lemma report_holds_no_markup_witness :
  TextFacts.every TextFacts.inert pretty_score = true.
Proof.
  apply (report_holds_no_markup world_A "left-pad" "npm" initial pretty_score);
    [exact Claims.literal_lawful | reflexivity].
Defined.

(** X14.  The two arguments are put into the query as they are.  A package
    name that ends in [&package_type=b] followed by the ecosystem [c] cannot
    be told from the package name before it with the ecosystem
    [b&package_type=c]: both calls send the same request, take the same time
    and return the same result. *)
Theorem arguments_are_not_escaped {SC : Json.Strconv} (w : World)
    (a b c : string) (st : State) :
  let one := trustyReport w a (b ++ "&package_type=" ++ c) st in
  let other := trustyReport w (a ++ "&package_type=" ++ b) c st in
  fst one = fst other
  /\ requests (trace (snd one)) = requests (trace (snd other))
  /\ now (snd one) = now (snd other).
Proof.
  intros one other. subst one other.
  rewrite !trustyReport_run.
  unfold lookup_result, lookup_events, lookup_took.
  rewrite report_url_split.
  cbn [fst snd trace now]. unfold requests.
  rewrite !filter_app. cbn [filter is_http].
  destruct (NewRequest w _); repeat split.
Qed.

(** X15.  The status code of the response has no influence: changing every
    status code the endpoint answers with changes neither what [trustyReport]
    returns, nor the state it leaves, nor anything of the run. *)
Theorem status_is_never_read {SC : Json.Strconv} (w : World) (f : N -> N)
    (userPrompt : list string) (packageName ecosystem : string) (st : State) :
  trustyReport (with_status f w) packageName ecosystem st
  = trustyReport w packageName ecosystem st
  /\ run (with_status f w) userPrompt = run w userPrompt.
Proof.
  assert (forall p e s, trustyReport (with_status f w) p e s = trustyReport w p e s)
    as Hsame.
  { intros p e s. unfold trustyReport.
    cbn [NewRequest Do with_status do_result do_took].
    destruct (NewRequest w _); [reflexivity |].
    cbv [bind emit wait].
    destruct (do_result (Do w _)) as [resp | err]; reflexivity. }
  split; [apply Hsame |].
  rewrite !run_first_turn.
  change (first_return (with_status f w) userPrompt) with (first_return w userPrompt).
  change (first_event (with_status f w) userPrompt) with (first_event w userPrompt).
  destruct (chat_result (first_return w userPrompt)) as [resp | err]; [| reflexivity].
  cbv zeta.
  destruct (ToolCalls (Message resp)) as [| call0 rest]; [reflexivity |].
  destruct (String.eqb _ _); [| reflexivity].
  change (responseAsMap (with_status f w)) with (responseAsMap w).
  assert (forall ctx messages call s,
            chatTrustyReport (with_status f w) ctx messages call s
            = chatTrustyReport w ctx messages call s) as ->.
  { intros ctx messages call s. unfold chatTrustyReport.
    destruct (as_string _); [| reflexivity].
    destruct (as_string _); [| reflexivity].
    unfold bind at 1 3. rewrite Hsame. reflexivity. }
  reflexivity.
Qed.

(** X16.  [trustyReport] always returns to its caller; every failure is an
    error value.  It writes nothing to standard output and logs nothing, asks
    the model nothing, and from whatever state it is called it adds one
    lookup and one request to the trace, or no request when
    [http.NewRequest] fails.  The clock does not go back. *)
Theorem trustyReport_only_looks_up {SC : Json.Strconv} (w : World)
    (packageName ecosystem : string) (st : State) :
  exists r st',
    trustyReport w packageName ecosystem st = (Return r, st')
    /\ stdout st' = stdout st
    /\ stderr st' = stderr st
    /\ chats (trace st') = chats (trace st)
    /\ lookups (trace st') = (lookups (trace st) ++ [EvLookup packageName ecosystem])%list
    /\ requests (trace st')
       = (requests (trace st)
          ++ match NewRequest w (report_url packageName ecosystem) with
             | Some _ => []
             | None => [EvHttp (report_url packageName ecosystem)]
             end)%list
    /\ (now st <= now st')%N.
Proof.
  rewrite trustyReport_run. eexists. eexists. split; [reflexivity |].
  cbn [stdout stderr trace now]. unfold chats, lookups, requests, lookup_events.
  rewrite !filter_app.
  destruct (NewRequest w _); cbn; rewrite ?app_nil_r; repeat split; lia.
Qed.

(** X17.  [chatTrustyReport] either ends the process or returns a message
    together with the [nil] error: the error test that follows its call in
    [main] never fires. *)
Theorem chatTrustyReport_returns_no_error {SC : Json.Strconv} (w : World)
    (ctx : Context) (messages : list map_string_any) (call : OllamaFunctionCall)
    (st : State) :
  (exists f st', chatTrustyReport w ctx messages call st = (Exit f, st'))
  \/ (exists ollamaMessage st',
        chatTrustyReport w ctx messages call st = (Return (ollamaMessage, None), st')).
Proof.
  unfold chatTrustyReport.
  destruct (as_string (index (Arguments call) "package_name")) as [pkgName |];
    [| left; eexists; eexists; reflexivity].
  destruct (as_string (index (Arguments call) "ecosystem")) as [ecoSystem |];
    [| left; eexists; eexists; reflexivity].
  cbv [bind]. rewrite trustyReport_run.
  destruct (lookup_result w pkgName ecoSystem) as [trustyReply | err];
    [| left; eexists; eexists; reflexivity].
  destruct (Chat w ctx _ None _) as [[[ollamaResponse | err] | f] st'].
  - right. eexists. eexists. reflexivity.
  - left. unfold chat_failed.
    destruct (is_DeadlineExceeded err); eexists; eexists; reflexivity.
  - left. eexists. eexists. reflexivity.
Qed.

(** X18.  The invoker enforces the descriptor.  Every name that
    [trustyTool] lists as required is declared there with the type "string",
    and [chatTrustyReport] ends in the [log.Fatalf] of an argument failure
    exactly when the call lacks a string for one of these names. *)
Theorem descriptor_is_enforced {SC : Json.Strconv} (w : World)
    (ctx : Context) (messages : list map_string_any) (call : OllamaFunctionCall)
    (st : State) :
  Forall (fun name => declared_type name = Some (Json.JString "string")) required_names
  /\ ((forall name, In name required_names ->
         exists s, index (Arguments call) name = Some (Json.JString s))
      <-> (forall arg st',
             chatTrustyReport w ctx messages call st <> (Exit (ArgumentError arg), st'))).
Proof.
  split; [repeat constructor |].
  change required_names with ["package_name"; "ecosystem"].
  unfold chatTrustyReport. split.
  - intros Hall.
    destruct (Hall "package_name" (or_introl eq_refl)) as [pkgName ->].
    destruct (Hall "ecosystem" (or_intror (or_introl eq_refl))) as [ecoSystem ->].
    cbn [as_string]. cbv [bind]. rewrite trustyReport_run.
    destruct (lookup_result w pkgName ecoSystem) as [trustyReply | err];
      [| intros arg st'; discriminate].
    destruct (Chat w ctx _ None _) as [[[ollamaResponse | err] | f] st'] eqn:Hchat.
    + intros arg st''. discriminate.
    + intros arg st''. unfold chat_failed.
      destruct (is_DeadlineExceeded err); discriminate.
    + exfalso. revert Hchat. unfold Chat. cbv [bind wait clock emit ret]. discriminate.
  - intros Hnever.
    destruct (as_string (index (Arguments call) "package_name")) as [pkgName |] eqn:Hpkg;
      [| exfalso; exact (Hnever _ _ eq_refl)].
    destruct (as_string (index (Arguments call) "ecosystem")) as [ecoSystem |] eqn:Heco;
      [| exfalso; exact (Hnever _ _ eq_refl)].
    intros name [<- | [<- | []]]; eexists; apply as_string_some; eassumption.
Qed.

End Behaviour.
